(** * Arduboy emulator display and input glue (arduboy_emu_app.c)

    A shallow embedding of the luminance-map integration, the display
    geometry computation, the canvas renderer and the key debouncing code of
    [arduboy_emu_app.c], together with the properties the design document
    states about them.

    C integers are modelled as [Z] with the conversions to their width
    written out; the global arrays ([g_ctx.luma_pixmap], [key_states]) are
    lists updated by index; calls into the widget toolkit and into the AVR
    emulator are either recorded as effects or taken as section variables. *)

From Stdlib Require Import ZArith Lia.
From stdpp Require Import base tactics option list numbers.

Local Open Scope Z_scope.

(** ** Machine integers *)

Module CInt.

(** Conversion to [uint8_t]. *)
Definition to_uint8 (z : Z) : Z := z mod 256.

(** Conversion to [int16_t] (two's complement). *)
Definition to_int16 (z : Z) : Z := (z + 32768) mod 65536 - 32768.

(** Conversion to [int] / [int32_t] (two's complement). *)
Definition to_int32 (z : Z) : Z := (z + 2147483648) mod 4294967296 - 2147483648.

Definition INT32_MAX : Z := 2147483647.

Definition is_uint8 (z : Z) : Prop := 0 <= z <= 255.

End CInt.
Import CInt.

(** ** Constants *)

Definition KEY_UP : Z := 17.
Definition KEY_LEFT : Z := 20.
Definition KEY_DOWN : Z := 18.
Definition KEY_RIGHT : Z := 19.
Definition KEY_ENTER : Z := 10.
Definition KEY_ESC : Z := 27.

Definition OLED_WIDTH : nat := 128.
Definition OLED_HEIGHT : nat := 64.

Definition MAX_CANVAS_SIZE : Z := Z.of_nat OLED_WIDTH * Z.of_nat OLED_HEIGHT * 8.

Definition BUTTON_COUNT : nat := 6.

(** ** Data model *)

(** [lv_color_t] as produced by [lv_color_make]. *)
Record lv_color_t := lv_color_make { red : Z; green : Z; blue : Z }.

Definition lv_color_black : lv_color_t := lv_color_make 0 0 0.
Definition LV_OPA_COVER : Z := 255.

(** [lv_obj_t *]: a handle to a toolkit object, [None] for [NULL]. *)
Definition lv_obj_ptr : Type := option nat.

(** A pointer used as a condition. *)
Definition non_null (p : lv_obj_ptr) : bool :=
  match p with Some _ => true | None => false end.

Record ArduboyLvglContext := mkContext {
  canvas : lv_obj_ptr;
  scale : Z;
  offset_x : Z;
  offset_y : Z;
  canvas_width : Z;
  canvas_height : Z;
  luma_pixmap : list Z;
  initialized : bool
}.

(** The part of [struct ssd1306_t] the renderer reads: [vram[page][col]]. *)
Record ssd1306_t := mkSsd1306 { vram : list (list Z) }.

Definition vram_at (ssd1306 : ssd1306_t) (page col : nat) : Z :=
  default 0 (default [] (vram ssd1306 !! page) !! col).

(** [memset(&g_ctx, 0, sizeof(g_ctx))]. *)
Definition zero_context : ArduboyLvglContext :=
  {| canvas := None; scale := 0; offset_x := 0; offset_y := 0;
     canvas_width := 0; canvas_height := 0;
     luma_pixmap := replicate (OLED_WIDTH * OLED_HEIGHT) 0;
     initialized := false |}.

Definition set_luma_pixmap (ctx : ArduboyLvglContext) (pix : list Z) : ArduboyLvglContext :=
  {| canvas := canvas ctx; scale := scale ctx;
     offset_x := offset_x ctx; offset_y := offset_y ctx;
     canvas_width := canvas_width ctx; canvas_height := canvas_height ctx;
     luma_pixmap := pix; initialized := initialized ctx |}.

(** ** Luminance map integration: [ssd1306_gl_update_lumamap] *)

(** The body of the bit loop on one cell value: [luma] is an [int16_t] loaded
    from the [uint8_t] cell, decayed, incremented when the lowest bit of
    [px_col] is set, clamped and stored back as [uint8_t]. *)
Definition luma_step (luma_decay luma_inc px_col old : Z) : Z :=
  let luma := to_int16 old in
  let luma := to_int16 (luma - luma_decay) in
  let luma := if Z.land px_col 1 =? 0 then luma else to_int16 (luma + luma_inc) in
  let luma := if luma <? 0 then 0 else if luma >? 255 then 255 else luma in
  to_uint8 luma.

(** The state threaded through the loops: the pixmap, and the list of cell
    indices written so far (a ghost trace, oldest first). *)
Record luma_state := mkLuma { pixmap : list Z; visited : list nat }.

(** [column_ptr[index] = ...] at absolute position [pos]. *)
Definition write_cell (luma_decay luma_inc px_col : Z) (pos : nat) (st : luma_state) : luma_state :=
  {| pixmap := <[pos := luma_step luma_decay luma_inc px_col (pixmap st !!! pos)]> (pixmap st);
     visited := visited st ++ [pos] |}.

(** [for (bit = 0; bit < 8; bit++)]: the loop state is [px_col] and the map. *)
Definition bit_loop (luma_decay luma_inc : Z) (column_ptr : nat) (px_col : Z)
    (st : luma_state) : luma_state :=
  snd (foldl (fun '(px_col, st) bit =>
                let index := (bit * OLED_WIDTH)%nat in
                let st := write_cell luma_decay luma_inc px_col (column_ptr + index) st in
                (to_uint8 (Z.shiftr px_col 1), st))
             (px_col, st) (seq 0 8)).

(** [for (col = 0; col < OLED_WIDTH; col++)]: the loop state is [column_ptr]
    and the map. *)
Definition col_loop (ssd1306 : ssd1306_t) (luma_decay luma_inc : Z) (page : nat)
    (acc : nat * luma_state) : nat * luma_state :=
  foldl (fun '(column_ptr, st) col =>
           let px_col := vram_at ssd1306 page col in
           let st := bit_loop luma_decay luma_inc column_ptr px_col st in
           (S column_ptr, st))
        acc (seq 0 OLED_WIDTH).

(** [for (page = 0; page < OLED_HEIGHT / 8; page++)]. *)
Definition page_loop (ssd1306 : ssd1306_t) (luma_decay luma_inc : Z)
    (acc : nat * luma_state) : nat * luma_state :=
  foldl (fun acc page =>
           let '(column_ptr, st) := col_loop ssd1306 luma_decay luma_inc page acc in
           ((column_ptr + OLED_WIDTH * 7)%nat, st))
        acc (seq 0 (OLED_HEIGHT / 8)).

(** The whole update on a pixmap, with its trace of written cells;
    [column_ptr] starts at offset 0 of [g_ctx.luma_pixmap]. *)
Definition update_lumamap_traced (ssd1306 : ssd1306_t) (luma_decay luma_inc : Z)
    (pix : list Z) : luma_state :=
  snd (page_loop ssd1306 luma_decay luma_inc (0%nat, mkLuma pix [])).

Definition update_lumamap (ssd1306 : ssd1306_t) (luma_decay luma_inc : Z)
    (pix : list Z) : list Z :=
  pixmap (update_lumamap_traced ssd1306 luma_decay luma_inc pix).

Definition ssd1306_gl_update_lumamap (ssd1306 : ssd1306_t) (luma_decay luma_inc : Z)
    (ctx : ArduboyLvglContext) : ArduboyLvglContext :=
  set_luma_pixmap ctx (update_lumamap ssd1306 luma_decay luma_inc (luma_pixmap ctx)).

(** ** Display geometry: [calculate_display_scaling] *)

Definition set_geometry (ctx : ArduboyLvglContext)
    (s ox oy cw ch : Z) : ArduboyLvglContext :=
  {| canvas := canvas ctx; scale := s; offset_x := ox; offset_y := oy;
     canvas_width := cw; canvas_height := ch;
     luma_pixmap := luma_pixmap ctx; initialized := initialized ctx |}.

(** The first part of the function: scale factors, centring, canvas size.
    [/] on C integers truncates towards zero ([Z.quot]); products and
    differences of [int]s are reduced to 32 bits. *)
Definition scaling_unguarded (screen_width screen_height : Z)
    (ctx : ArduboyLvglContext) : ArduboyLvglContext :=
  let scale_by_height := Z.quot screen_height (Z.of_nat OLED_HEIGHT) in
  let scale_by_width := Z.quot screen_width (Z.of_nat OLED_WIDTH) in
  let s := if scale_by_height <? scale_by_width then scale_by_height else scale_by_width in
  let s := if s <? 1 then 1 else s in
  let scaled_width := to_int32 (Z.of_nat OLED_WIDTH * s) in
  let scaled_height := to_int32 (Z.of_nat OLED_HEIGHT * s) in
  set_geometry ctx s
    (Z.quot (to_int32 (screen_width - scaled_width)) 2)
    (Z.quot (to_int32 (screen_height - scaled_height)) 2)
    scaled_width scaled_height.

(** The second part: "Ensure we don't exceed static buffer size". *)
Definition scaling_capacity_guard (screen_width screen_height : Z)
    (ctx : ArduboyLvglContext) : ArduboyLvglContext :=
  let total_pixels := to_int32 (canvas_width ctx * canvas_height ctx) in
  if total_pixels >? MAX_CANVAS_SIZE then
    let cw := Z.of_nat OLED_WIDTH in
    let ch := Z.of_nat OLED_HEIGHT in
    set_geometry ctx 1
      (Z.quot (to_int32 (screen_width - cw)) 2)
      (Z.quot (to_int32 (screen_height - ch)) 2)
      cw ch
  else ctx.

Definition calculate_display_scaling (screen_width screen_height : Z)
    (ctx : ArduboyLvglContext) : ArduboyLvglContext :=
  scaling_capacity_guard screen_width screen_height
    (scaling_unguarded screen_width screen_height ctx).

(** ** Canvas set-up, rendering and tear-down

    The canvas pixel store belongs to the widget toolkit; its two drawing
    primitives are taken as variables, so that every statement below holds
    for any toolkit. *)

Section Canvas.

Context {surface : Type}.

(** [lv_canvas_fill_bg(canvas, color, opa)] on the canvas pixel store. *)
Variable lv_canvas_fill_bg : surface -> lv_color_t -> Z -> surface.

(** [lv_canvas_set_px(canvas, x, y, color, opa)]. *)
Variable lv_canvas_set_px : surface -> Z -> Z -> lv_color_t -> Z -> surface.

Definition gray_u8_to_rgb (v : Z) : lv_color_t := lv_color_make v v v.

Definition set_canvas (ctx : ArduboyLvglContext) (c : lv_obj_ptr) : ArduboyLvglContext :=
  {| canvas := c; scale := scale ctx;
     offset_x := offset_x ctx; offset_y := offset_y ctx;
     canvas_width := canvas_width ctx; canvas_height := canvas_height ctx;
     luma_pixmap := luma_pixmap ctx; initialized := initialized ctx |}.

Definition set_initialized (ctx : ArduboyLvglContext) (b : bool) : ArduboyLvglContext :=
  {| canvas := canvas ctx; scale := scale ctx;
     offset_x := offset_x ctx; offset_y := offset_y ctx;
     canvas_width := canvas_width ctx; canvas_height := canvas_height ctx;
     luma_pixmap := luma_pixmap ctx; initialized := b |}.

(** [create_canvas]: [new_canvas] is what [lv_canvas_create] returned. *)
Definition create_canvas (new_canvas : lv_obj_ptr)
    (st : ArduboyLvglContext * surface) : ArduboyLvglContext * surface :=
  (set_canvas st.1 new_canvas, lv_canvas_fill_bg st.2 lv_color_black LV_OPA_COVER).

(** [ssd1306_gl_init]; the screen size is what the toolkit reports. *)
Definition ssd1306_gl_init (screen_width screen_height : Z) (new_canvas : lv_obj_ptr)
    (st : ArduboyLvglContext * surface) : ArduboyLvglContext * surface :=
  if initialized st.1 then st
  else
    let ctx := calculate_display_scaling screen_width screen_height zero_context in
    let st := create_canvas new_canvas (ctx, st.2) in
    (set_initialized st.1 true, st.2).

(** [ssd1306_gl_cleanup]. *)
Definition ssd1306_gl_cleanup (ctx : ArduboyLvglContext) : ArduboyLvglContext :=
  if initialized ctx then
    let ctx := match canvas ctx with
               | Some _ => set_canvas ctx None
               | None => ctx
               end in
    set_initialized ctx false
  else ctx.

(** The two innermost loops of the renderer: one scaled block. *)
Definition fill_block (s : Z) (x y : Z) (color : lv_color_t) (surf : surface) : surface :=
  foldl (fun surf dy =>
           foldl (fun surf dx =>
                    lv_canvas_set_px surf
                      (to_int32 (to_int32 (x * s) + dx))
                      (to_int32 (to_int32 (y * s) + dy))
                      color LV_OPA_COVER)
                 surf (seqZ 0 s))
        surf (seqZ 0 s).

(** [ssd1306_gl_render]. *)
Definition ssd1306_gl_render (ctx : ArduboyLvglContext) (surf : surface) : surface :=
  if negb (initialized ctx) || negb (non_null (canvas ctx)) then surf
  else
    let surf := lv_canvas_fill_bg surf lv_color_black LV_OPA_COVER in
    let s := scale ctx in
    foldl (fun surf y =>
             foldl (fun surf x =>
                      let luminance := luma_pixmap ctx !!! (y * OLED_WIDTH + x)%nat in
                      let color := gray_u8_to_rgb luminance in
                      fill_block s (Z.of_nat x) (Z.of_nat y) color surf)
                   surf (seq 0 OLED_WIDTH))
          surf (seq 0 OLED_HEIGHT).

End Canvas.

(** ** Key handling *)

(** What the key handling code does to its collaborators, in call order. *)
Inductive effect :=
  | ButtonEvent (btn : Z) (pressed : bool)  (* arduboy_avr_button_event *)
  | TimerCreate (period : Z)                (* lv_timer_create(key_release_timer_cb, period, NULL) *)
  | TimerReset.                             (* lv_timer_reset(g_release_timer) *)

(** The timer object behind [g_release_timer]. *)
Record lv_timer_t := mkTimer { period : Z }.

Record input_state := mkInput {
  key_states : list bool;
  g_release_timer : option lv_timer_t
}.

Definition input_init : input_state :=
  {| key_states := replicate BUTTON_COUNT false; g_release_timer := None |}.

Definition key_to_button_e (key : Z) : Z :=
  if key =? KEY_UP then 0
  else if key =? KEY_DOWN then 1
  else if key =? KEY_LEFT then 2
  else if key =? KEY_RIGHT then 3
  else if (key =? KEY_ENTER) || (key =? 122) then 4
  else if (key =? KEY_ESC) || (key =? 120) then 5
  else -1.

Definition lv_arduboy_emu_app_handle_input (key : Z) (st : input_state)
    : input_state * list effect :=
  let button_index := key_to_button_e key in
  if (0 <=? button_index) && (button_index <? Z.of_nat BUTTON_COUNT) then
    if negb (key_states st !!! Z.to_nat button_index) then
      let ks := <[Z.to_nat button_index := true]> (key_states st) in
      match g_release_timer st with
      | None =>
          ({| key_states := ks; g_release_timer := Some (mkTimer 100) |},
           [ButtonEvent button_index true; TimerCreate 100])
      | Some t =>
          ({| key_states := ks; g_release_timer := Some t |},
           [ButtonEvent button_index true; TimerReset])
      end
    else (st, [])
  else (st, []).

(** [key_release_timer_cb]: the loop state is the key table and the effects
    emitted so far. *)
Definition key_release_timer_cb (st : input_state) : input_state * list effect :=
  foldl (fun (acc : input_state * list effect) (i : nat) =>
           let '(st, evs) := acc in
           if (key_states st !!! i : bool) then
             ({| key_states := <[i := false]> (key_states st);
                 g_release_timer := g_release_timer st |},
              evs ++ [ButtonEvent (Z.of_nat i) false])
           else (st, evs))
        (st, []) (seq 0 BUTTON_COUNT).

(** [arduboy_key_event_cb] forwards the key of the event. *)
Definition arduboy_key_event_cb (key : Z) (st : input_state) : input_state * list effect :=
  lv_arduboy_emu_app_handle_input key st.

(** Running a sequence of key events with no timer callback in between. *)
Definition handle_inputs (keys : list Z) (st : input_state) : input_state * list effect :=
  foldl (fun (acc : input_state * list effect) (key : Z) =>
           let '(st, evs) := acc in
           let '(st', evs') := lv_arduboy_emu_app_handle_input key st in
           (st', evs ++ evs'))
        (st, []) keys.

(** ** Vocabulary of the statements *)

(** Saturation to [0, 255] on unbounded integers. *)
Definition clamp255 (z : Z) : Z := Z.max 0 (Z.min 255 z).

(** The cell of pixel [(x, y)], as the renderer addresses it:
    [luma_pixmap[y * OLED_WIDTH + x]]. *)
Definition cell_index (x y : nat) : nat := (y * OLED_WIDTH + x)%nat.

(** Bit [bit] of the byte [vram[page][col]]. *)
Definition frame_bit (ssd1306 : ssd1306_t) (page col bit : nat) : bool :=
  Z.testbit (vram_at ssd1306 page col) (Z.of_nat bit).

(** A pixmap as the C array has it: [OLED_WIDTH * OLED_HEIGHT] bytes. *)
Definition wf_pixmap (pix : list Z) : Prop :=
  length pix = (OLED_WIDTH * OLED_HEIGHT)%nat /\ Forall is_uint8 pix.

(** A frame all of whose bytes are 0. *)
Definition frame_all_zero (ssd1306 : ssd1306_t) : Prop :=
  forall page col, vram_at ssd1306 page col = 0.

Definition zero_frame : ssd1306_t :=
  mkSsd1306 (replicate (OLED_HEIGHT / 8) (replicate OLED_WIDTH 0)).

(** One call of the update: frame, decay, increment. *)
Definition luma_call : Type := ssd1306_t * Z * Z.

Definition wf_call (c : luma_call) : Prop := is_uint8 c.1.2 /\ is_uint8 c.2.

Definition run_call (pix : list Z) (c : luma_call) : list Z :=
  update_lumamap c.1.1 c.1.2 c.2 pix.

(** The pixmap after a sequence of update calls. *)
Definition run_calls (calls : list luma_call) (pix : list Z) : list Z :=
  foldl run_call pix calls.

(** [px_col] after [n] iterations of the bit loop. *)
Definition shift_px (n : nat) (px_col : Z) : Z :=
  Nat.iter n (fun p => to_uint8 (Z.shiftr p 1)) px_col.

(** A sequence of cell writes, each with the [px_col] value it sees. *)
Definition apply_writes (luma_decay luma_inc : Z) (ws : list (nat * Z))
    (st : luma_state) : luma_state :=
  foldl (fun st w => write_cell luma_decay luma_inc w.2 w.1 st) st ws.

(** The writes of one run of the bit loop, of the column loop, and of the
    whole update. *)
Definition bit_writes (column_ptr : nat) (px_col : Z) : list (nat * Z) :=
  (fun bit => ((column_ptr + bit * OLED_WIDTH)%nat, shift_px bit px_col)) <$> seq 0 8.

Definition col_writes (ssd1306 : ssd1306_t) (page column_ptr : nat) : list (nat * Z) :=
  seq 0 OLED_WIDTH ≫= fun col => bit_writes (column_ptr + col) (vram_at ssd1306 page col).

Definition frame_writes (ssd1306 : ssd1306_t) : list (nat * Z) :=
  seq 0 (OLED_HEIGHT / 8) ≫= fun page => col_writes ssd1306 page (page * (OLED_WIDTH * 8)).

(** The cells in the order the three loops reach them. *)
Definition cell_order : list nat :=
  seq 0 (OLED_HEIGHT / 8) ≫= fun page =>
  seq 0 OLED_WIDTH ≫= fun col =>
  (fun bit => (page * (OLED_WIDTH * 8) + col + bit * OLED_WIDTH)%nat) <$> seq 0 8.

(** The unguarded scale of the design document:
    [min(floor(h/64), floor(w/128))], at least 1. *)
Definition spec_scale (w h : Z) : Z :=
  Z.max 1 (Z.min (h / Z.of_nat OLED_HEIGHT) (w / Z.of_nat OLED_WIDTH)).

Definition is_surface_size (w h : Z) : Prop :=
  0 <= w <= INT32_MAX /\ 0 <= h <= INT32_MAX.

(** The key codes of the lookup table. *)
Definition mapped_keys : list Z :=
  [KEY_UP; KEY_DOWN; KEY_LEFT; KEY_RIGHT; KEY_ENTER; 122; KEY_ESC; 120].

Definition is_release (e : effect) : bool :=
  match e with ButtonEvent _ false => true | _ => false end.

(** The signals sent to the emulator, as opposed to timer calls. *)
Definition is_button_event (e : effect) : bool :=
  match e with ButtonEvent _ _ => true | _ => false end.

(** A frame all of whose bits are set, and the frame of all [0xFF] bytes. *)
Definition frame_all_ones (ssd1306 : ssd1306_t) : Prop :=
  forall page col bit, (page < 8)%nat -> (col < 128)%nat -> (bit < 8)%nat ->
    frame_bit ssd1306 page col bit = true.

Definition ones_frame : ssd1306_t :=
  mkSsd1306 (replicate (OLED_HEIGHT / 8) (replicate OLED_WIDTH 255)).

(** What one call adds to an unsaturated cell: [i - d] under a set bit,
    [- d] under a clear one. *)
Definition cell_drift (ssd1306 : ssd1306_t) (d i : Z) (page col bit : nat) : Z :=
  if frame_bit ssd1306 page col bit then i - d else - d.

(** The events the host delivers to the key handling code. *)
Inductive input_event :=
  | KeyEvent (key : Z)   (* LV_EVENT_KEY on the focused object *)
  | TimerFire.           (* the release timer expires *)

(** One event: a key goes through [arduboy_key_event_cb]; the timer callback
    can only run once [lv_timer_create] has registered it. *)
Definition input_step (st : input_state) (e : input_event) : input_state * list effect :=
  match e with
  | KeyEvent key => arduboy_key_event_cb key st
  | TimerFire =>
      match g_release_timer st with
      | Some _ => key_release_timer_cb st
      | None => (st, [])
      end
  end.

(** Any interleaving of key events and timer expiries. *)
Definition run_events (es : list input_event) (st : input_state) : input_state * list effect :=
  foldl (fun (acc : input_state * list effect) (e : input_event) =>
           let '(st, evs) := acc in
           let '(st', evs') := input_step st e in
           (st', evs ++ evs'))
        (st, []) es.

(** The receiving side of [arduboy_avr_button_event]: button flags updated
    by each signal, refusing an index outside the table, a press of a
    pressed button and a release of a released one. *)
Definition replay_effect (ks : list bool) (e : effect) : option (list bool) :=
  match e with
  | ButtonEvent btn pressed =>
      if (0 <=? btn) && (btn <? Z.of_nat BUTTON_COUNT) then
        match ks !! Z.to_nat btn with
        | Some cur =>
            if Bool.eqb cur pressed then None
            else Some (<[Z.to_nat btn := pressed]> ks)
        | None => None
        end
      else None
  | _ => Some ks
  end.

Fixpoint replay (ks : list bool) (evs : list effect) : option (list bool) :=
  match evs with
  | [] => Some ks
  | e :: evs =>
      match replay_effect ks e with
      | Some ks' => replay ks' evs
      | None => None
      end
  end.

(** The buttons pressed, and the buttons released, by a list of effects. *)
Definition pressed_buttons (evs : list effect) : list Z :=
  omap (fun e => match e with ButtonEvent b true => Some b | _ => None end) evs.

Definition released_buttons (evs : list effect) : list Z :=
  omap (fun e => match e with ButtonEvent b false => Some b | _ => None end) evs.


(** What is held: the flags set in the key table are the buttons pressed
    so far, each pressed once. *)
Definition held_matches (ks : list bool) (evs : list effect) : Prop :=
  length ks = BUTTON_COUNT /\
  NoDup (pressed_buttons evs) /\
  forall b, b ∈ pressed_buttons evs <->
            0 <= b < Z.of_nat BUTTON_COUNT /\ ks !! Z.to_nat b = Some true.

(** The [lv_canvas_set_px] calls of one render, in call order: position
    and colour. *)
Definition render_writes (ctx : ArduboyLvglContext) : list (Z * Z * lv_color_t) :=
  seq 0 OLED_HEIGHT ≫= fun y =>
  seq 0 OLED_WIDTH ≫= fun x =>
  seqZ 0 (scale ctx) ≫= fun dy =>
  (fun dx =>
     (to_int32 (to_int32 (Z.of_nat x * scale ctx) + dx),
      to_int32 (to_int32 (Z.of_nat y * scale ctx) + dy),
      gray_u8_to_rgb (luma_pixmap ctx !!! (y * OLED_WIDTH + x)%nat)))
    <$> seqZ 0 (scale ctx).

(** The colour the luminance map assigns to canvas pixel [(px, py)]: that
    of source pixel [(px / scale, py / scale)]. *)
Definition upscaled (ctx : ArduboyLvglContext) (px py : Z) : lv_color_t :=
  gray_u8_to_rgb
    (luma_pixmap ctx !!! (Z.to_nat (py / scale ctx) * OLED_WIDTH
                          + Z.to_nat (px / scale ctx))%nat).

(** A canvas pixel store as a function from coordinates to colours, for
    running the renderer. *)
Definition px_store : Type := Z -> Z -> lv_color_t.

Definition px_fill (s : px_store) (c : lv_color_t) (opa : Z) : px_store :=
  fun _ _ => c.

Definition px_set (s : px_store) (x y : Z) (c : lv_color_t) (opa : Z) : px_store :=
  fun x' y' => if (x =? x') && (y =? y') then c else s x' y'.

Definition px_get (s : px_store) (x y : Z) : lv_color_t := s x y.

(** * Properties *)

(** ** Machine integers *)

Lemma to_uint8_small z : is_uint8 z -> to_uint8 z = z.
Proof. unfold is_uint8, to_uint8. intros H. apply Z.mod_small. lia. Qed.

Lemma to_uint8_range z : is_uint8 (to_uint8 z).
Proof.
  unfold is_uint8, to_uint8.
  pose proof (Z.mod_pos_bound z 256 ltac:(lia)). lia.
Qed.

Lemma to_int16_small z : -32768 <= z <= 32767 -> to_int16 z = z.
Proof. unfold to_int16. intros H. rewrite Z.mod_small; lia. Qed.

Lemma to_int32_small z : -2147483648 <= z <= 2147483647 -> to_int32 z = z.
Proof. unfold to_int32. intros H. rewrite Z.mod_small; lia. Qed.

(** ** The cell update *)

(** On bytes, the body of the bit loop is the saturating formula: none of
    the intermediate conversions changes a value. *)
Lemma luma_step_clamp d i px old :
  is_uint8 d -> is_uint8 i -> is_uint8 old ->
  luma_step d i px old =
  clamp255 (old - d + if Z.land px 1 =? 0 then 0 else i).
Proof.
  unfold is_uint8, luma_step, clamp255. intros Hd Hi Ho.
  rewrite (to_int16_small old) by lia.
  rewrite (to_int16_small (old - d)) by lia.
  destruct (Z.land px 1 =? 0).
  - repeat case_match; rewrite to_uint8_small; unfold is_uint8; lia.
  - rewrite (to_int16_small (old - d + i)) by lia.
    repeat case_match; rewrite to_uint8_small; unfold is_uint8; lia.
Qed.

Lemma luma_step_range d i px old : is_uint8 (luma_step d i px old).
Proof. apply to_uint8_range. Qed.

(** The lowest bit of [px_col] in iteration [bit] is bit [bit] of the byte. *)
Lemma shift_px_testbit n px m :
  (0 <= m)%Z -> (m + Z.of_nat n < 8)%Z ->
  Z.testbit (shift_px n px) m = Z.testbit px (m + Z.of_nat n).
Proof.
  revert m. induction n as [|n IH]; intros m Hm Hlt.
  - simpl. f_equal. lia.
  - unfold shift_px in *. rewrite Nat.iter_succ. unfold to_uint8.
    change 256 with (2 ^ 8). rewrite Z.mod_pow2_bits_low by lia.
    rewrite Z.shiftr_spec by lia. rewrite IH by lia. f_equal. lia.
Qed.

Lemma land_1_testbit z : (Z.land z 1 =? 0) = negb (Z.testbit z 0).
Proof.
  change 1 with (Z.ones 1). rewrite Z.land_ones by lia.
  rewrite <- Z.bit0_mod. destruct (Z.testbit z 0); reflexivity.
Qed.

Lemma shift_px_lowbit bit px :
  (bit < 8)%nat ->
  (Z.land (shift_px bit px) 1 =? 0) = negb (Z.testbit px (Z.of_nat bit)).
Proof.
  intros Hb. rewrite land_1_testbit, shift_px_testbit by lia. reflexivity.
Qed.

(** ** The loops as a sequence of cell writes *)

Section Loops.

Variables (ssd1306 : ssd1306_t) (luma_decay luma_inc : Z).

Local Abbreviation writes := (apply_writes luma_decay luma_inc).

Lemma apply_writes_app ws1 ws2 st :
  writes (ws1 ++ ws2) st = writes ws2 (writes ws1 st).
Proof. apply foldl_app. Qed.

Lemma bit_loop_from column_ptr px0 n : forall a st,
  foldl (fun '(px_col, st) bit =>
           let index := (bit * OLED_WIDTH)%nat in
           let st := write_cell luma_decay luma_inc px_col (column_ptr + index) st in
           (to_uint8 (Z.shiftr px_col 1), st))
        (shift_px a px0, st) (seq a n)
  = (shift_px (a + n) px0,
     writes ((fun bit => ((column_ptr + bit * OLED_WIDTH)%nat, shift_px bit px0))
               <$> seq a n) st).
Proof.
  induction n as [|n IH]; intros a st.
  - rewrite Nat.add_0_r. reflexivity.
  - cbn [seq foldl fmap list_fmap].
    change (to_uint8 (Z.shiftr (shift_px a px0) 1)) with (shift_px (S a) px0).
    rewrite IH. f_equal. f_equal. lia.
Qed.

Lemma bit_loop_writes column_ptr px_col st :
  bit_loop luma_decay luma_inc column_ptr px_col st
  = writes (bit_writes column_ptr px_col) st.
Proof.
  unfold bit_loop, bit_writes.
  change px_col with (shift_px 0 px_col) at 1.
  rewrite bit_loop_from. reflexivity.
Qed.

Lemma col_loop_from page cp0 n : forall a st,
  foldl (fun '(column_ptr, st) col =>
           let px_col := vram_at ssd1306 page col in
           let st := bit_loop luma_decay luma_inc column_ptr px_col st in
           (S column_ptr, st))
        ((cp0 + a)%nat, st) (seq a n)
  = ((cp0 + (a + n))%nat,
     writes (seq a n ≫= fun col =>
               bit_writes (cp0 + col) (vram_at ssd1306 page col)) st).
Proof.
  induction n as [|n IH]; intros a st.
  - rewrite Nat.add_0_r. reflexivity.
  - cbn [seq foldl]. rewrite bind_cons, apply_writes_app, <- bit_loop_writes.
    replace (S (cp0 + a)) with (cp0 + S a)%nat by lia.
    rewrite IH. f_equal. lia.
Qed.

Lemma col_loop_writes page column_ptr st :
  col_loop ssd1306 luma_decay luma_inc page (column_ptr, st)
  = ((column_ptr + OLED_WIDTH)%nat, writes (col_writes ssd1306 page column_ptr) st).
Proof.
  unfold col_loop, col_writes.
  replace column_ptr with (column_ptr + 0)%nat at 1 by lia.
  rewrite col_loop_from. reflexivity.
Qed.

Lemma page_loop_from n : forall a st,
  foldl (fun acc page =>
           let '(column_ptr, st) := col_loop ssd1306 luma_decay luma_inc page acc in
           ((column_ptr + OLED_WIDTH * 7)%nat, st))
        ((a * (OLED_WIDTH * 8))%nat, st) (seq a n)
  = (((a + n) * (OLED_WIDTH * 8))%nat,
     writes (seq a n ≫= fun page =>
               col_writes ssd1306 page (page * (OLED_WIDTH * 8))) st).
Proof.
  induction n as [|n IH]; intros a st.
  - rewrite Nat.add_0_r. reflexivity.
  - cbn [seq foldl]. rewrite col_loop_writes, bind_cons, apply_writes_app.
    replace (a * (OLED_WIDTH * 8) + OLED_WIDTH + OLED_WIDTH * 7)%nat
      with (S a * (OLED_WIDTH * 8))%nat by lia.
    rewrite IH. f_equal. lia.
Qed.

(** The update performs exactly the writes of [frame_writes], in order. *)
Lemma update_lumamap_traced_writes pix :
  update_lumamap_traced ssd1306 luma_decay luma_inc pix
  = writes (frame_writes ssd1306) (mkLuma pix []).
Proof.
  unfold update_lumamap_traced, page_loop, frame_writes.
  pose proof (page_loop_from (OLED_HEIGHT / 8) 0 (mkLuma pix [])) as H.
  change (0 * (OLED_WIDTH * 8))%nat with 0%nat in H.
  rewrite H. reflexivity.
Qed.

(** *** What a sequence of writes does *)

Lemma apply_writes_visited ws : forall st,
  visited (writes ws st) = visited st ++ ws.*1.
Proof.
  induction ws as [|w ws IH]; intros st; cbn [apply_writes foldl fmap list_fmap].
  - by rewrite app_nil_r.
  - fold (writes ws (write_cell luma_decay luma_inc w.2 w.1 st)).
    rewrite IH. cbn [write_cell visited]. by rewrite <- app_assoc.
Qed.

Lemma apply_writes_length ws : forall st,
  length (pixmap (writes ws st)) = length (pixmap st).
Proof.
  induction ws as [|w ws IH]; intros st; cbn [apply_writes foldl]; [done|].
  fold (writes ws (write_cell luma_decay luma_inc w.2 w.1 st)).
  rewrite IH. cbn [write_cell pixmap]. apply length_insert.
Qed.

Lemma apply_writes_untouched ws k : forall st,
  k ∉ ws.*1 -> pixmap (writes ws st) !! k = pixmap st !! k.
Proof.
  induction ws as [|w ws IH]; intros st Hk; cbn [apply_writes foldl]; [done|].
  fold (writes ws (write_cell luma_decay luma_inc w.2 w.1 st)).
  cbn [fmap list_fmap] in Hk. apply not_elem_of_cons in Hk as [Hne Hk].
  rewrite IH by done. cbn [write_cell pixmap].
  by rewrite list_lookup_insert_ne.
Qed.

Lemma apply_writes_touched ws k px old : forall st,
  NoDup ws.*1 -> (k, px) ∈ ws -> pixmap st !! k = Some old ->
  pixmap (writes ws st) !! k = Some (luma_step luma_decay luma_inc px old).
Proof.
  induction ws as [|w ws IH]; intros st Hnd Hin Hold; [by inv Hin|].
  cbn [apply_writes foldl].
  fold (writes ws (write_cell luma_decay luma_inc w.2 w.1 st)).
  cbn [fmap list_fmap] in Hnd. inversion_clear Hnd as [|? ? Hfresh Hnd'].
  apply elem_of_cons in Hin as [<-|Hin].
  - rewrite apply_writes_untouched by done. cbn [write_cell pixmap fst snd].
    rewrite (list_lookup_total_correct _ _ _ Hold).
    apply list_lookup_insert_eq. by eapply lookup_lt_Some.
  - apply IH; [done..|]. cbn [write_cell pixmap].
    rewrite list_lookup_insert_ne; [done|].
    intros Heq. apply Hfresh. rewrite Heq.
    by apply (list_elem_of_fmap_2 fst _ (k, px)).
Qed.

End Loops.

(** ** Which cells the update reaches *)

Lemma fmap_bind_pointwise {A B C} (f : B -> C) (g : A -> list B) (h : A -> list C) l :
  (forall x, f <$> g x = h x) -> f <$> (l ≫= g) = l ≫= h.
Proof.
  intros Hgh. induction l as [|x l IH]; [done|].
  by rewrite !bind_cons, fmap_app, IH, Hgh.
Qed.

Lemma frame_writes_keys ssd1306 : (frame_writes ssd1306).*1 = cell_order.
Proof.
  unfold frame_writes, cell_order.
  apply fmap_bind_pointwise. intros page.
  apply fmap_bind_pointwise. intros col.
  unfold bit_writes. rewrite <- list_fmap_compose.
  apply list_fmap_ext. intros _ bit _. simpl. lia.
Qed.

Ltac oled_consts :=
  change (OLED_HEIGHT / 8)%nat with 8%nat in *;
  unfold OLED_WIDTH, OLED_HEIGHT in *.

Lemma elem_of_cell_order k :
  k ∈ cell_order <->
  exists page col bit, (page < 8 /\ col < 128 /\ bit < 8)%nat /\
    k = (page * (OLED_WIDTH * 8) + col + bit * OLED_WIDTH)%nat.
Proof.
  unfold cell_order. rewrite list_elem_of_bind. split.
  - intros (page & Hk & Hpage). apply list_elem_of_bind in Hk as (col & Hk & Hcol).
    apply list_elem_of_fmap in Hk as (bit & -> & Hbit).
    apply elem_of_seq in Hpage, Hcol, Hbit. oled_consts.
    exists page, col, bit. lia.
  - intros (page & col & bit & (Hp & Hc & Hb) & ->).
    exists page. split; [|apply elem_of_seq; oled_consts; lia].
    apply list_elem_of_bind. exists col. split; [|apply elem_of_seq; oled_consts; lia].
    apply list_elem_of_fmap. exists bit. split; [done|apply elem_of_seq; lia].
Qed.

Lemma cell_order_bound k :
  k ∈ cell_order <-> (k < OLED_WIDTH * OLED_HEIGHT)%nat.
Proof.
  rewrite elem_of_cell_order. split.
  - intros (page & col & bit & Hb & ->). oled_consts. lia.
  - intros Hk. oled_consts.
    exists (k / 128 / 8)%nat, (k mod 128)%nat, (k / 128 mod 8)%nat.
    pose proof (Nat.div_mod_eq k 128).
    pose proof (Nat.mod_upper_bound k 128 ltac:(lia)).
    pose proof (Nat.div_mod_eq (k / 128) 8).
    pose proof (Nat.mod_upper_bound (k / 128) 8 ltac:(lia)).
    lia.
Qed.

Lemma NoDup_cell_order : NoDup cell_order.
Proof.
  unfold cell_order. apply NoDup_bind; [| |apply NoDup_seq].
  - intros p1 p2 k Hp1 Hp2 Hk1 Hk2.
    apply list_elem_of_bind in Hk1 as (c1 & Hk1 & Hc1).
    apply list_elem_of_bind in Hk2 as (c2 & Hk2 & Hc2).
    apply list_elem_of_fmap in Hk1 as (b1 & -> & Hb1).
    apply list_elem_of_fmap in Hk2 as (b2 & Heq & Hb2).
    apply elem_of_seq in Hp1, Hp2, Hc1, Hc2, Hb1, Hb2. oled_consts. lia.
  - intros page Hpage. apply NoDup_bind; [| |apply NoDup_seq].
    + intros c1 c2 k Hc1 Hc2 Hk1 Hk2.
      apply list_elem_of_fmap in Hk1 as (b1 & -> & Hb1).
      apply list_elem_of_fmap in Hk2 as (b2 & Heq & Hb2).
      apply elem_of_seq in Hc1, Hc2, Hb1, Hb2. oled_consts. lia.
    + intros col Hcol. apply NoDup_fmap_2_strong; [|apply NoDup_seq].
      intros b1 b2 _ _ Heq. oled_consts. lia.
Qed.

(** The cells written are all the cells, each once. *)
Lemma cell_order_permutation : cell_order ≡ₚ seq 0 (OLED_WIDTH * OLED_HEIGHT).
Proof.
  apply NoDup_Permutation; [apply NoDup_cell_order|apply NoDup_seq|].
  intros k. rewrite cell_order_bound, elem_of_seq. lia.
Qed.

Lemma elem_of_frame_writes ssd1306 page col bit :
  (page < 8)%nat -> (col < 128)%nat -> (bit < 8)%nat ->
  (cell_index col (page * 8 + bit), shift_px bit (vram_at ssd1306 page col))
    ∈ frame_writes ssd1306.
Proof.
  intros Hp Hc Hb. unfold frame_writes.
  apply list_elem_of_bind. exists page. split; [|apply elem_of_seq; oled_consts; lia].
  apply list_elem_of_bind. exists col. split; [|apply elem_of_seq; oled_consts; lia].
  apply list_elem_of_fmap. exists bit. split; [|apply elem_of_seq; lia].
  f_equal. unfold cell_index. lia.
Qed.

(** ** The update, cell by cell *)

Lemma update_lumamap_visited ssd1306 d i pix :
  visited (update_lumamap_traced ssd1306 d i pix) = cell_order.
Proof.
  rewrite update_lumamap_traced_writes, apply_writes_visited.
  apply frame_writes_keys.
Qed.

Lemma update_lumamap_length ssd1306 d i pix :
  length (update_lumamap ssd1306 d i pix) = length pix.
Proof.
  unfold update_lumamap.
  by rewrite update_lumamap_traced_writes, apply_writes_length.
Qed.

Lemma update_lumamap_lookup ssd1306 d i pix page col bit old :
  (page < 8)%nat -> (col < 128)%nat -> (bit < 8)%nat ->
  pix !! cell_index col (page * 8 + bit) = Some old ->
  update_lumamap ssd1306 d i pix !! cell_index col (page * 8 + bit)
  = Some (luma_step d i (shift_px bit (vram_at ssd1306 page col)) old).
Proof.
  intros Hp Hc Hb Hold. unfold update_lumamap.
  rewrite update_lumamap_traced_writes.
  apply apply_writes_touched; [|by apply elem_of_frame_writes|done].
  rewrite frame_writes_keys. apply NoDup_cell_order.
Qed.

(** Every cell index decomposes into page, column and bit. *)
Lemma cell_index_decompose k :
  (k < OLED_WIDTH * OLED_HEIGHT)%nat ->
  exists page col bit, (page < 8 /\ col < 128 /\ bit < 8)%nat /\
    k = cell_index col (page * 8 + bit).
Proof.
  intros Hk. apply cell_order_bound, elem_of_cell_order in Hk
    as (page & col & bit & Hb & ->).
  exists page, col, bit. split; [done|]. unfold cell_index. lia.
Qed.

Lemma update_lumamap_wf ssd1306 d i pix :
  wf_pixmap pix -> wf_pixmap (update_lumamap ssd1306 d i pix).
Proof.
  intros [Hlen Hall]. split; [by rewrite update_lumamap_length|].
  apply Forall_lookup. intros k x Hx.
  assert (k < OLED_WIDTH * OLED_HEIGHT)%nat as Hk.
  { apply lookup_lt_Some in Hx. by rewrite update_lumamap_length, Hlen in Hx. }
  destruct (cell_index_decompose k Hk) as (page & col & bit & (Hp & Hc & Hb) & ->).
  destruct (lookup_lt_is_Some_2 pix (cell_index col (page * 8 + bit))) as [old Hold];
    [by rewrite Hlen|].
  rewrite (update_lumamap_lookup _ _ _ _ _ _ _ old) in Hx by done.
  inv Hx. apply luma_step_range.
Qed.

Lemma zero_pixmap_wf : wf_pixmap (luma_pixmap zero_context).
Proof.
  split; [apply length_replicate|].
  apply Forall_replicate. unfold is_uint8. lia.
Qed.


(** C1: one call of the luminance-map update with a raw frame, decay [d]
    and increment [i] writes every one of the [128 * 64] cells exactly once
    (the trace of written cells is a permutation of all cell indices), and
    the cell of pixel [(col, page * 8 + bit)], bit 0 of a page byte being the
    top row of the page, becomes [clamp (old - d + (bit set ? i : 0), 0, 255)]. *)
Theorem lumamap_update_each_cell_once ssd1306 d i ctx :
  is_uint8 d -> is_uint8 i -> wf_pixmap (luma_pixmap ctx) ->
  (OLED_WIDTH * OLED_HEIGHT = 128 * 64)%nat /\
  visited (update_lumamap_traced ssd1306 d i (luma_pixmap ctx))
    ≡ₚ seq 0 (OLED_WIDTH * OLED_HEIGHT) /\
  forall page col bit,
    (page < OLED_HEIGHT / 8)%nat -> (col < OLED_WIDTH)%nat -> (bit < 8)%nat ->
    exists old,
      luma_pixmap ctx !! cell_index col (page * 8 + bit) = Some old /\
      luma_pixmap (ssd1306_gl_update_lumamap ssd1306 d i ctx)
        !! cell_index col (page * 8 + bit)
      = Some (clamp255 (old - d + if frame_bit ssd1306 page col bit then i else 0)).
Proof.
  intros Hd Hi [Hlen Hall]. split; [reflexivity|]. split.
  - rewrite update_lumamap_visited. apply cell_order_permutation.
  - intros page col bit Hp Hc Hb. oled_consts.
    destruct (lookup_lt_is_Some_2 (luma_pixmap ctx) (cell_index col (page * 8 + bit)))
      as [old Hold].
    { rewrite Hlen. unfold cell_index, OLED_WIDTH. lia. }
    exists old. split; [done|]. cbn [ssd1306_gl_update_lumamap set_luma_pixmap luma_pixmap].
    rewrite (update_lumamap_lookup _ _ _ _ _ _ _ old) by done.
    f_equal. rewrite luma_step_clamp; [|done|done|].
    + rewrite shift_px_lowbit by done. unfold frame_bit.
      by destruct (Z.testbit _ _).
    + by eapply (proj1 (Forall_lookup _ _) Hall).
Qed.

Lemma lumamap_update_each_cell_once_witness :
  visited (update_lumamap_traced zero_frame 3 10 (luma_pixmap zero_context))
    ≡ₚ seq 0 (OLED_WIDTH * OLED_HEIGHT).
Proof.
  refine (proj1 (proj2 (lumamap_update_each_cell_once zero_frame 3 10 zero_context _ _ _))).
  - unfold is_uint8. lia.
  - unfold is_uint8. lia.
  - split; [apply length_replicate|]. apply Forall_replicate. unfold is_uint8. lia.
Defined.

(** ** Sequences of updates *)

Lemma run_calls_wf calls : forall pix, wf_pixmap pix -> wf_pixmap (run_calls calls pix).
Proof.
  unfold run_calls.
  induction calls as [|c calls IH]; intros pix Hwf; [exact Hwf|].
  cbn [foldl]. apply IH. unfold run_call. apply update_lumamap_wf. exact Hwf.
Qed.

(** A single call never wraps: whatever the frame holds, the new value of a
    cell is the saturated [old - d] or [old - d + i]. *)
Lemma run_call_saturates pix c k old :
  wf_pixmap pix -> wf_call c -> pix !! k = Some old ->
  exists inc, (inc = 0 \/ inc = c.2) /\
    run_call pix c !! k = Some (clamp255 (old - c.1.2 + inc)).
Proof.
  intros [Hlen Hall] [Hd Hi] Hold.
  assert (k < OLED_WIDTH * OLED_HEIGHT)%nat as Hk.
  { rewrite <- Hlen. by eapply lookup_lt_Some. }
  destruct (cell_index_decompose k Hk) as (page & col & bit & (Hp & Hc & Hb) & ->).
  unfold run_call. rewrite (update_lumamap_lookup _ _ _ _ _ _ _ old) by done.
  rewrite luma_step_clamp; [|done|done|by eapply (proj1 (Forall_lookup _ _) Hall)].
  destruct (Z.land _ 1 =? 0); eauto.
Qed.

(** C2: starting from the zero-initialised map, after every call of every
    sequence of updates (arbitrary frames, byte-sized decays and increments)
    the map still has all its cells within [0, 255]; and the next call
    computes each cell by saturation, not by wrap-around. *)
Theorem lumamap_cells_stay_in_range calls n :
  Forall wf_call calls ->
  let pix := run_calls (take n calls) (luma_pixmap zero_context) in
  length pix = (OLED_WIDTH * OLED_HEIGHT)%nat /\
  (forall k v, pix !! k = Some v -> 0 <= v <= 255) /\
  (forall c k old, calls !! n = Some c -> pix !! k = Some old ->
     exists inc, (inc = 0 \/ inc = c.2) /\
       run_call pix c !! k = Some (clamp255 (old - c.1.2 + inc))).
Proof.
  intros Hcalls pix.
  assert (wf_pixmap pix) as Hwf by apply run_calls_wf, zero_pixmap_wf.
  split; [apply Hwf|]. split.
  - intros k v Hv. by eapply (proj1 (Forall_lookup _ _) (proj2 Hwf)).
  - intros c k old Hc Hold. apply run_call_saturates; [done| |done].
    by eapply (proj1 (Forall_lookup _ _) Hcalls).
Qed.

Lemma lumamap_cells_stay_in_range_witness :
  Forall wf_call [(zero_frame, 3, 10); (zero_frame, 255, 255); (zero_frame, 0, 1)] /\
  length (run_calls (take 2 [(zero_frame, 3, 10); (zero_frame, 255, 255); (zero_frame, 0, 1)])
            (luma_pixmap zero_context))
  = (OLED_WIDTH * OLED_HEIGHT)%nat.
Proof.
  assert (Forall wf_call [(zero_frame, 3, 10); (zero_frame, 255, 255); (zero_frame, 0, 1)])
    as Hcalls by (repeat constructor; cbn; lia).
  split; [exact Hcalls|].
  exact (proj1 (lumamap_cells_stay_in_range _ 2 Hcalls)).
Defined.

(** ** Decay without increment *)

Lemma decay_only_step ssd1306 d pix k old :
  0 < d <= 255 -> wf_pixmap pix -> pix !! k = Some old ->
  update_lumamap ssd1306 d 0 pix !! k = Some (Z.max 0 (old - d)).
Proof.
  intros Hd [Hlen Hall] Hold.
  assert (k < OLED_WIDTH * OLED_HEIGHT)%nat as Hk.
  { rewrite <- Hlen. by eapply lookup_lt_Some. }
  destruct (cell_index_decompose k Hk) as (page & col & bit & (Hp & Hc & Hb) & ->).
  rewrite (update_lumamap_lookup _ _ _ _ _ _ _ old) by done.
  pose proof (proj1 (Forall_lookup _ _) Hall _ _ Hold) as Ho.
  unfold is_uint8 in Ho.
  rewrite luma_step_clamp; unfold is_uint8; try lia.
  f_equal. unfold clamp255. destruct (Z.land _ 1 =? 0); lia.
Qed.

Lemma iter_update_wf ssd1306 d i n pix :
  wf_pixmap pix -> wf_pixmap (Nat.iter n (update_lumamap ssd1306 d i) pix).
Proof.
  intros Hwf. induction n as [|n IH]; [exact Hwf|].
  rewrite Nat.iter_succ. apply update_lumamap_wf. exact IH.
Qed.

Lemma decay_only_iter ssd1306 d n : forall pix k old,
  0 < d <= 255 -> wf_pixmap pix -> pix !! k = Some old ->
  Nat.iter n (update_lumamap ssd1306 d 0) pix !! k
  = Some (Z.max 0 (old - Z.of_nat n * d)).
Proof.
  induction n as [|n IH]; intros pix k old Hd Hwf Hold.
  - change (Nat.iter 0 (update_lumamap ssd1306 d 0) pix) with pix.
    rewrite Hold. f_equal.
    pose proof (proj1 (Forall_lookup _ _) (proj2 Hwf) _ _ Hold) as Ho.
    unfold is_uint8 in Ho. lia.
  - rewrite Nat.iter_succ.
    rewrite (decay_only_step _ _ _ _ _ Hd (iter_update_wf _ _ _ n _ Hwf)
               (IH _ _ _ Hd Hwf Hold)).
    f_equal. lia.
Qed.

Lemma zero_frame_all_zero : frame_all_zero zero_frame.
Proof.
  intros page col. unfold vram_at, zero_frame. cbn [vram].
  destruct (replicate (OLED_HEIGHT / 8) (replicate OLED_WIDTH 0) !! page)
    as [row|] eqn:Hrow; [|reflexivity].
  apply lookup_replicate in Hrow as [-> _]. cbn [default from_option id].
  destruct (replicate OLED_WIDTH 0 !! col) as [b|] eqn:Hb; [|reflexivity].
  apply lookup_replicate in Hb as [-> _]. reflexivity.
Qed.

(** C7: with an all-zero frame, increment 0 and decay [d > 0], any map
    with cells in [0, 255] has every cell at 0 after [ceil(255 / d)] calls
    (and after any larger number of calls); a cell at 0 stays at 0. *)
Theorem decay_only_convergence ssd1306 d pix n :
  frame_all_zero ssd1306 -> 0 < d <= 255 -> wf_pixmap pix ->
  (255 + d - 1) / d <= Z.of_nat n ->
  (forall k, (k < OLED_WIDTH * OLED_HEIGHT)%nat ->
     Nat.iter n (update_lumamap ssd1306 d 0) pix !! k = Some 0) /\
  (forall k, pix !! k = Some 0 -> update_lumamap ssd1306 d 0 pix !! k = Some 0).
Proof.
  intros _ Hd Hwf Hn. split.
  - intros k Hk.
    destruct (lookup_lt_is_Some_2 pix k) as [old Hold]; [by rewrite (proj1 Hwf)|].
    rewrite (decay_only_iter _ _ _ _ _ old) by done. f_equal.
    pose proof (proj1 (Forall_lookup _ _) (proj2 Hwf) _ _ Hold) as Ho.
    unfold is_uint8 in Ho.
    assert (255 <= Z.of_nat n * d); [|lia].
    assert (255 <= (255 + d - 1) / d * d); [|nia].
    pose proof (Z.div_mod (255 + d - 1) d ltac:(lia)).
    pose proof (Z.mod_pos_bound (255 + d - 1) d ltac:(lia)). lia.
  - intros k Hk. rewrite (decay_only_step _ _ _ _ 0) by done. f_equal. lia.
Qed.

Lemma decay_only_convergence_witness :
  (0 < 64 <= 255 /\ (255 + 64 - 1) / 64 <= Z.of_nat 4) /\
  Nat.iter 4 (update_lumamap zero_frame 64 0) (replicate (OLED_WIDTH * OLED_HEIGHT) 255) !! 17%nat
  = Some 0.
Proof.
  split; [split; [lia|vm_compute; discriminate]|].
  refine (proj1 (decay_only_convergence zero_frame 64
    (replicate (OLED_WIDTH * OLED_HEIGHT) 255) 4 zero_frame_all_zero _ _ _) 17%nat _).
  - lia.
  - split; [apply length_replicate|]. apply Forall_replicate. unfold is_uint8. lia.
  - vm_compute. discriminate.
  - unfold OLED_WIDTH, OLED_HEIGHT. lia.
Defined.

(** ** Display geometry *)

Ltac geometry_consts :=
  change (Z.of_nat OLED_WIDTH) with 128 in *;
  change (Z.of_nat OLED_HEIGHT) with 64 in *;
  change MAX_CANVAS_SIZE with 65536 in *.

Lemma spec_scale_bounds w h :
  is_surface_size w h ->
  1 <= spec_scale w h /\
  (spec_scale w h = 1 \/ (128 * spec_scale w h <= w /\ 64 * spec_scale w h <= h)).
Proof.
  unfold is_surface_size, spec_scale, INT32_MAX. geometry_consts. intros [Hw Hh].
  pose proof (Z.mul_div_le w 128 ltac:(lia)).
  pose proof (Z.mul_div_le h 64 ltac:(lia)).
  lia.
Qed.

(** The first part of the computation, in closed form. *)
Lemma scaling_unguarded_spec w h ctx :
  is_surface_size w h ->
  scaling_unguarded w h ctx
  = set_geometry ctx (spec_scale w h)
      (Z.quot (w - 128 * spec_scale w h) 2) (Z.quot (h - 64 * spec_scale w h) 2)
      (128 * spec_scale w h) (64 * spec_scale w h).
Proof.
  intros Hs. pose proof (spec_scale_bounds w h Hs) as [H1 Hfit].
  unfold scaling_unguarded.
  assert ((if (if Z.quot h (Z.of_nat OLED_HEIGHT) <? Z.quot w (Z.of_nat OLED_WIDTH)
               then Z.quot h (Z.of_nat OLED_HEIGHT) else Z.quot w (Z.of_nat OLED_WIDTH)) <? 1
           then 1
           else if Z.quot h (Z.of_nat OLED_HEIGHT) <? Z.quot w (Z.of_nat OLED_WIDTH)
                then Z.quot h (Z.of_nat OLED_HEIGHT) else Z.quot w (Z.of_nat OLED_WIDTH))
          = spec_scale w h) as ->.
  { unfold spec_scale, is_surface_size in *. geometry_consts.
    rewrite !Z.quot_div_nonneg by lia.
    repeat case_match; lia. }
  unfold is_surface_size, INT32_MAX in Hs. geometry_consts.
  rewrite (to_int32_small (128 * spec_scale w h)) by lia.
  rewrite (to_int32_small (64 * spec_scale w h)) by lia.
  rewrite !to_int32_small by lia. reflexivity.
Qed.

(** Scales 1 and 2 pass the capacity guard. *)
Lemma calculate_display_scaling_fits w h ctx :
  is_surface_size w h -> spec_scale w h <= 2 ->
  calculate_display_scaling w h ctx = scaling_unguarded w h ctx.
Proof.
  intros Hs H2. pose proof (spec_scale_bounds w h Hs) as [H1 _].
  unfold calculate_display_scaling. rewrite scaling_unguarded_spec by done.
  unfold scaling_capacity_guard. cbn [canvas_width canvas_height set_geometry].
  assert (spec_scale w h = 1 \/ spec_scale w h = 2) as [-> | ->] by lia; reflexivity.
Qed.

(** Scales from 3 up to 511 trip it: the canvas area is computed exactly. *)
Lemma calculate_display_scaling_fallback w h ctx :
  is_surface_size w h -> 3 <= spec_scale w h < 512 ->
  calculate_display_scaling w h ctx
  = set_geometry ctx 1 (Z.quot (w - 128) 2) (Z.quot (h - 64) 2) 128 64.
Proof.
  intros Hs H3.
  unfold calculate_display_scaling. rewrite scaling_unguarded_spec by done.
  unfold scaling_capacity_guard. cbn [canvas_width canvas_height set_geometry].
  unfold is_surface_size, INT32_MAX in Hs. geometry_consts.
  rewrite (to_int32_small (128 * spec_scale w h * (64 * spec_scale w h))) by nia.
  destruct (Z.gtb_spec (128 * spec_scale w h * (64 * spec_scale w h)) 65536); [|nia].
  cbn [canvas luma_pixmap initialized set_geometry].
  rewrite !to_int32_small by lia. reflexivity.
Qed.

(** As long as the area product fits an [int], the guard does its job. *)
Lemma capacity_guard_sound w h ctx :
  is_surface_size w h -> spec_scale w h < 512 ->
  let geo := calculate_display_scaling w h ctx in
  (scale geo = 1 \/ scale geo = 2) /\
  canvas_width geo * canvas_height geo <= MAX_CANVAS_SIZE.
Proof.
  intros Hs H512. pose proof (spec_scale_bounds w h Hs) as [H1 _].
  destruct (Z_le_gt_dec (spec_scale w h) 2) as [H2|H2].
  - cbv zeta. rewrite calculate_display_scaling_fits, scaling_unguarded_spec by done.
    cbn [scale canvas_width canvas_height set_geometry]. geometry_consts.
    assert (spec_scale w h = 1 \/ spec_scale w h = 2) as [-> | ->] by lia; lia.
  - cbv zeta. rewrite calculate_display_scaling_fallback by (done || lia).
    cbn [scale canvas_width canvas_height set_geometry]. geometry_consts. lia.
Qed.

(** C3 (amended): for every surface size, the scale computed before the
    capacity guard is [min(floor(h/64), floor(w/128))] raised to at least 1,
    with offsets [(w - 128*scale)/2] and [(h - 64*scale)/2] by C integer
    division (possibly negative); the geometry computation yields that scale
    whenever it is at most 2, and in every case its offsets are centred for
    the scale it yields; a 384x168 surface yields scale 2, canvas 256x128,
    offsets 64 and 20. *)
Theorem display_scaling_formula w h ctx :
  is_surface_size w h ->
  let s := spec_scale w h in
  let pre := scaling_unguarded w h ctx in
  let geo := calculate_display_scaling w h ctx in
  1 <= s /\
  (scale pre = s /\
   offset_x pre = Z.quot (w - 128 * s) 2 /\ offset_y pre = Z.quot (h - 64 * s) 2) /\
  (s <= 2 ->
   scale geo = s /\ canvas_width geo = 128 * s /\ canvas_height geo = 64 * s) /\
  (offset_x geo = Z.quot (w - 128 * scale geo) 2 /\
   offset_y geo = Z.quot (h - 64 * scale geo) 2) /\
  (let ex := calculate_display_scaling 384 168 ctx in
   scale ex = 2 /\ canvas_width ex = 256 /\ canvas_height ex = 128 /\
   offset_x ex = 64 /\ offset_y ex = 20).
Proof.
  intros Hs s pre geo. pose proof (spec_scale_bounds w h Hs) as [H1 _].
  split; [done|]. split; [|split; [|split]].
  - subst pre s. by rewrite scaling_unguarded_spec.
  - intros H2. subst geo s.
    by rewrite calculate_display_scaling_fits, scaling_unguarded_spec.
  - subst geo. unfold calculate_display_scaling, scaling_capacity_guard.
    rewrite scaling_unguarded_spec by done.
    cbn [canvas_width canvas_height set_geometry].
    destruct (_ >? _); cbn [scale offset_x offset_y set_geometry]; [|done].
    unfold is_surface_size, INT32_MAX in Hs. geometry_consts.
    rewrite !to_int32_small by lia. by rewrite !Z.mul_1_r.
  - vm_compute. done.
Qed.

Lemma display_scaling_formula_witness :
  scale (scaling_unguarded 50 50 zero_context) = spec_scale 50 50 /\
  offset_x (scaling_unguarded 50 50 zero_context) = Z.quot (50 - 128 * spec_scale 50 50) 2 /\
  offset_y (scaling_unguarded 50 50 zero_context) = Z.quot (50 - 64 * spec_scale 50 50) 2.
Proof.
  refine (proj1 (proj2 (display_scaling_formula 50 50 zero_context _))).
  unfold is_surface_size, INT32_MAX. lia.
Defined.

(** C3, as stated, fails where the capacity guard fires: on a 384x192
    surface the formula gives 3 but the geometry computation yields 1. *)
Lemma display_scaling_formula_fails_384x192 :
  spec_scale 384 192 = 3 /\
  scale (calculate_display_scaling 384 192 zero_context) = 1 /\
  scale (calculate_display_scaling 384 192 zero_context) <> spec_scale 384 192.
Proof. vm_compute. repeat split; discriminate. Qed.

(** C4 (evaluation at the failing input): on a 65536x32768 surface the
    area product 65536 * 32768 = 2^31 does not fit an [int]; reduced to 32
    bits it is negative, the guard does not fire, and the canvas keeps
    scale 512 with an area far above [MAX_CANVAS_SIZE]. *)
Theorem capacity_guard_misses_overflow :
  let geo := calculate_display_scaling 65536 32768 zero_context in
  is_surface_size 65536 32768 /\
  to_int32 (65536 * 32768) = -2147483648 /\
  scale geo = 512 /\ canvas_width geo = 65536 /\ canvas_height geo = 32768 /\
  canvas_width geo * canvas_height geo > MAX_CANVAS_SIZE.
Proof. vm_compute. repeat split; discriminate. Qed.

(** C9 (evaluation at the failing input): the same surface gives a computed
    scale of 512, which does not trip the fallback, so the final scale is
    neither 1 nor 2. *)
Theorem final_scale_not_1_or_2_on_overflow :
  spec_scale 65536 32768 = 512 /\
  scale (calculate_display_scaling 65536 32768 zero_context) = 512 /\
  scale (calculate_display_scaling 65536 32768 zero_context) <> 1 /\
  scale (calculate_display_scaling 65536 32768 zero_context) <> 2.
Proof. vm_compute. repeat split; discriminate. Qed.

(** ** Key handling *)

Lemma elem_of_mapped_keys key :
  key ∈ mapped_keys <->
  key = 17 \/ key = 18 \/ key = 20 \/ key = 19 \/
  key = 10 \/ key = 122 \/ key = 27 \/ key = 120.
Proof.
  unfold mapped_keys, KEY_UP, KEY_DOWN, KEY_LEFT, KEY_RIGHT, KEY_ENTER, KEY_ESC.
  rewrite !elem_of_cons, elem_of_nil. tauto.
Qed.

Lemma key_to_button_e_mapped key :
  key ∈ mapped_keys -> 0 <= key_to_button_e key < Z.of_nat BUTTON_COUNT.
Proof.
  rewrite elem_of_mapped_keys.
  intros [->|[->|[->|[->|[->|[->|[->| ->]]]]]]];
    vm_compute; (split; [discriminate|reflexivity]).
Qed.

Lemma key_to_button_e_unmapped key :
  key ∉ mapped_keys -> key_to_button_e key = -1.
Proof.
  rewrite elem_of_mapped_keys. intros Hk.
  unfold key_to_button_e, KEY_UP, KEY_DOWN, KEY_LEFT, KEY_RIGHT, KEY_ENTER, KEY_ESC.
  repeat match goal with
         | |- context [?a =? ?b] => destruct (Z.eqb_spec a b); [lia|]
         end.
  reflexivity.
Qed.

(** A key whose button is Released: one press, the flag is set, the timer
    is created or reset. *)
Lemma handle_input_released key st :
  key ∈ mapped_keys ->
  key_states st !! Z.to_nat (key_to_button_e key) = Some false ->
  lv_arduboy_emu_app_handle_input key st
  = ({| key_states := <[Z.to_nat (key_to_button_e key) := true]> (key_states st);
        g_release_timer := Some (default (mkTimer 100) (g_release_timer st)) |},
     [ButtonEvent (key_to_button_e key) true;
      match g_release_timer st with
      | Some _ => TimerReset
      | None => TimerCreate 100
      end]).
Proof.
  intros Hkey Hst. pose proof (key_to_button_e_mapped key Hkey) as Hb.
  unfold lv_arduboy_emu_app_handle_input.
  rewrite (list_lookup_total_correct _ _ _ Hst).
  destruct (Z.leb_spec 0 (key_to_button_e key)); [|lia].
  destruct (Z.ltb_spec (key_to_button_e key) (Z.of_nat BUTTON_COUNT)); [|lia].
  cbn [andb negb]. by destruct (g_release_timer st).
Qed.

(** A key whose button is Pressed: nothing happens. *)
Lemma handle_input_pressed key st :
  key_states st !! Z.to_nat (key_to_button_e key) = Some true ->
  lv_arduboy_emu_app_handle_input key st = (st, []).
Proof.
  intros Hst. unfold lv_arduboy_emu_app_handle_input.
  rewrite (list_lookup_total_correct _ _ _ Hst).
  by destruct (_ && _).
Qed.

Lemma handle_inputs_pressed key n : forall st evs,
  key_states st !! Z.to_nat (key_to_button_e key) = Some true ->
  foldl (fun (acc : input_state * list effect) (key : Z) =>
           let '(st, evs) := acc in
           let '(st', evs') := lv_arduboy_emu_app_handle_input key st in
           (st', evs ++ evs'))
        (st, evs) (replicate n key)
  = (st, evs).
Proof.
  induction n as [|n IH]; intros st evs Hst; [done|].
  cbn [replicate foldl]. rewrite handle_input_pressed by done.
  rewrite app_nil_r. by apply IH.
Qed.

(** C5: for a mapped key whose button is Released, the first delivery
    emits exactly one button signal, a press, and sets the button to
    Pressed; every delivery while the button is Pressed emits nothing and
    changes nothing; so delivering the key [n + 1] times with no timer
    callback in between has the effects and the final state of delivering
    it once. *)
Theorem debounce_press_once key st n :
  key ∈ mapped_keys ->
  let b := Z.to_nat (key_to_button_e key) in
  key_states st !! b = Some false ->
  let first := lv_arduboy_emu_app_handle_input key st in
  List.filter is_button_event first.2 = [ButtonEvent (key_to_button_e key) true] /\
  key_states first.1 = <[b := true]> (key_states st) /\
  key_states first.1 !! b = Some true /\
  (forall st', key_states st' !! b = Some true ->
     lv_arduboy_emu_app_handle_input key st' = (st', [])) /\
  handle_inputs (replicate (S n) key) st = first.
Proof.
  intros Hkey b Hst first.
  assert (key_states first.1 !! b = Some true) as Hset.
  { subst first. rewrite handle_input_released by done. cbn [fst key_states].
    apply list_lookup_insert_eq. by eapply lookup_lt_Some. }
  split; [|split; [|split; [|split]]].
  - subst first. rewrite handle_input_released by done.
    cbn [snd]. by destruct (g_release_timer st).
  - subst first. by rewrite handle_input_released.
  - exact Hset.
  - intros st' Hst'. by apply handle_input_pressed.
  - unfold handle_inputs. cbn [replicate foldl].
    fold first. destruct first as [st1 evs1] eqn:Hfirst.
    cbn [app]. by apply handle_inputs_pressed.
Qed.

Lemma debounce_press_once_witness :
  handle_inputs (replicate 3 KEY_UP) input_init
  = lv_arduboy_emu_app_handle_input KEY_UP input_init.
Proof.
  refine (proj2 (proj2 (proj2 (proj2 (debounce_press_once KEY_UP input_init 2 _ _))))).
  - vm_compute. by left.
  - reflexivity.
Defined.

(** The release loop on a full key table, case by case. *)
Lemma key_release_timer_cb_spec st :
  length (key_states st) = BUTTON_COUNT ->
  (key_release_timer_cb st).2
  = (fun i => ButtonEvent (Z.of_nat i) false)
      <$> List.filter (fun i => key_states st !!! i) (seq 0 BUTTON_COUNT) /\
  key_states (key_release_timer_cb st).1 = replicate BUTTON_COUNT false /\
  g_release_timer (key_release_timer_cb st).1 = g_release_timer st.
Proof.
  destruct st as [ks t]. cbn [key_states]. intros Hlen.
  do 7 (destruct ks as [|? ks]; try discriminate Hlen).
  repeat match goal with b : bool |- _ => destruct b end;
    vm_compute; done.
Qed.

Lemma handle_input_no_release key st :
  List.filter is_release (lv_arduboy_emu_app_handle_input key st).2 = [].
Proof.
  unfold lv_arduboy_emu_app_handle_input.
  destruct (_ && _); [|done]. destruct (negb _); [|done].
  by destruct (g_release_timer st).
Qed.

(** C6: the timer callback emits one release for every button that is
    Pressed (in index order, none for a Released button), leaves every
    button Released and does not touch the timer; key handling never emits
    a release. *)
Theorem release_only_on_timer st :
  length (key_states st) = BUTTON_COUNT ->
  let fired := key_release_timer_cb st in
  fired.2 = (fun i => ButtonEvent (Z.of_nat i) false)
              <$> List.filter (fun i => key_states st !!! i) (seq 0 BUTTON_COUNT) /\
  key_states fired.1 = replicate BUTTON_COUNT false /\
  (forall key st0,
     List.filter is_release (lv_arduboy_emu_app_handle_input key st0).2 = []) /\
  (forall keys st0, List.filter is_release (handle_inputs keys st0).2 = []).
Proof.
  intros Hlen fired.
  destruct (key_release_timer_cb_spec st Hlen) as (Hevs & Hks & _).
  split; [done|]. split; [done|]. split; [apply handle_input_no_release|].
  intros keys st0. unfold handle_inputs.
  assert (forall acc : input_state * list effect,
             List.filter is_release acc.2 = [] ->
             List.filter is_release
               (foldl (fun (acc : input_state * list effect) (key : Z) =>
                         let '(st, evs) := acc in
                         let '(st', evs') := lv_arduboy_emu_app_handle_input key st in
                         (st', evs ++ evs')) acc keys).2 = []) as Hgen.
  { induction keys as [|key keys IH]; intros [st1 evs] Hacc; [done|].
    cbn [foldl]. apply IH.
    pose proof (handle_input_no_release key st1) as Hnr.
    destruct (lv_arduboy_emu_app_handle_input key st1) as [st2 evs2].
    cbn [snd] in *. by rewrite List.filter_app, Hacc, Hnr. }
  by apply Hgen.
Qed.

Lemma release_only_on_timer_witness :
  (key_release_timer_cb (mkInput [true; false; false; false; true; false] None)).2
  = [ButtonEvent 0 false; ButtonEvent 4 false].
Proof.
  refine (proj1 (release_only_on_timer
                   (mkInput [true; false; false; false; true; false] None) _)).
  reflexivity.
Defined.

(** C8: a key code outside the lookup table changes nothing: no effect is
    emitted (no button event, no timer creation or reset) and the state,
    key table and timer alike, is returned as it was. *)
Theorem unmapped_key_is_noop key st :
  key ∉ mapped_keys ->
  key_to_button_e key = -1 /\
  lv_arduboy_emu_app_handle_input key st = (st, []).
Proof.
  intros Hkey. pose proof (key_to_button_e_unmapped key Hkey) as Hb.
  split; [done|]. unfold lv_arduboy_emu_app_handle_input. by rewrite Hb.
Qed.

Lemma unmapped_key_is_noop_witness :
  lv_arduboy_emu_app_handle_input 99 (mkInput [true; false; false; false; false; false] None)
  = (mkInput [true; false; false; false; false; false] None, []).
Proof.
  refine (proj2 (unmapped_key_is_noop 99
                   (mkInput [true; false; false; false; false; false] None) _)).
  rewrite elem_of_mapped_keys. lia.
Defined.

(** ** Rendering *)

(** Before initialisation and after tear-down the context is not
    initialised. *)
Lemma cleanup_not_initialized ctx :
  initialized zero_context = false /\ initialized (ssd1306_gl_cleanup ctx) = false.
Proof.
  split; [reflexivity|]. unfold ssd1306_gl_cleanup.
  destruct (initialized ctx) eqn:Hinit; [|exact Hinit].
  by destruct (canvas ctx).
Qed.

(** C10: when the context is not initialised, or has no canvas, rendering
    returns the destination surface as it was, whatever the toolkit's
    drawing primitives do. *)
Theorem render_uninitialized_is_noop {surface : Type}
    (fill_bg : surface -> lv_color_t -> Z -> surface)
    (set_px : surface -> Z -> Z -> lv_color_t -> Z -> surface)
    (ctx : ArduboyLvglContext) (surf : surface) :
  initialized ctx = false \/ canvas ctx = None ->
  ssd1306_gl_render fill_bg set_px ctx surf = surf.
Proof.
  intros [Hinit | Hcanvas]; unfold ssd1306_gl_render.
  - by rewrite Hinit.
  - rewrite Hcanvas. cbn [non_null negb]. by rewrite orb_true_r.
Qed.

Lemma render_uninitialized_is_noop_witness :
  ssd1306_gl_render (fun (s : list lv_color_t) c _ => c :: s)
                    (fun s _ _ c _ => c :: s) zero_context []
  = [].
Proof.
  refine (render_uninitialized_is_noop _ _ zero_context [] _).
  left. reflexivity.
Defined.

(** * Further properties of the luminance map *)

(** One call on one cell, by frame bit. *)
Lemma update_lumamap_cell ssd1306 d i pix page col bit old :
  is_uint8 d -> is_uint8 i -> is_uint8 old ->
  (page < 8)%nat -> (col < 128)%nat -> (bit < 8)%nat ->
  pix !! cell_index col (page * 8 + bit) = Some old ->
  update_lumamap ssd1306 d i pix !! cell_index col (page * 8 + bit)
  = Some (clamp255 (old - d + if frame_bit ssd1306 page col bit then i else 0)).
Proof.
  intros Hd Hi Ho Hp Hc Hb Hold.
  rewrite (update_lumamap_lookup _ _ _ _ _ _ _ old) by done.
  rewrite luma_step_clamp by done.
  rewrite shift_px_lowbit by done. unfold frame_bit.
  by destruct (Z.testbit _ _).
Qed.

Lemma clamp255_drift v a t :
  0 <= v <= 255 -> (0 <= a -> 0 <= t) -> (a <= 0 -> t <= 0) ->
  clamp255 (clamp255 (v + t) + a) = clamp255 (v + (t + a)).
Proof. unfold clamp255. lia. Qed.

Lemma constant_frame_iter ssd1306 d i pix n page col bit old :
  is_uint8 d -> is_uint8 i -> wf_pixmap pix ->
  (page < 8)%nat -> (col < 128)%nat -> (bit < 8)%nat ->
  pix !! cell_index col (page * 8 + bit) = Some old ->
  Nat.iter n (update_lumamap ssd1306 d i) pix !! cell_index col (page * 8 + bit)
  = Some (clamp255 (old + Z.of_nat n * cell_drift ssd1306 d i page col bit)).
Proof.
  intros Hd Hi Hwf Hp Hc Hb Hold.
  pose proof (proj1 (Forall_lookup _ _) (proj2 Hwf) _ _ Hold) as Ho.
  induction n as [|n IH].
  - change (Nat.iter 0 (update_lumamap ssd1306 d i) pix) with pix.
    rewrite Hold. f_equal. unfold clamp255, is_uint8 in *. lia.
  - rewrite Nat.iter_succ.
    assert (is_uint8 (clamp255 (old + Z.of_nat n * cell_drift ssd1306 d i page col bit)))
      as Hrange by (unfold is_uint8, clamp255; lia).
    rewrite (update_lumamap_cell _ _ _ _ _ _ _ _ Hd Hi Hrange Hp Hc Hb IH).
    f_equal. unfold cell_drift, is_uint8 in *.
    destruct (frame_bit ssd1306 page col bit).
    + replace (clamp255 (old + Z.of_nat n * (i - d)) - d + i)
        with (clamp255 (old + Z.of_nat n * (i - d)) + (i - d)) by lia.
      rewrite clamp255_drift by nia. f_equal. lia.
    + replace (clamp255 (old + Z.of_nat n * - d) - d + 0)
        with (clamp255 (old + Z.of_nat n * - d) + - d) by lia.
      rewrite clamp255_drift by nia. f_equal. lia.
Qed.

(** Under a frame that stays the same, [n] calls move every cell by [n]
    times its drift, saturated once: the map has a closed form. *)
Theorem constant_frame_closed_form ssd1306 d i pix n page col bit old :
  is_uint8 d -> is_uint8 i -> wf_pixmap pix ->
  (page < 8)%nat -> (col < 128)%nat -> (bit < 8)%nat ->
  pix !! cell_index col (page * 8 + bit) = Some old ->
  Nat.iter n (update_lumamap ssd1306 d i) pix !! cell_index col (page * 8 + bit)
  = Some (clamp255 (old + Z.of_nat n * cell_drift ssd1306 d i page col bit)).
Proof. apply constant_frame_iter. Qed.

Lemma ones_frame_all_ones : frame_all_ones ones_frame.
Proof.
  intros page col bit Hp Hc Hb. unfold frame_bit, vram_at, ones_frame. cbn [vram].
  rewrite lookup_replicate_2 by (oled_consts; lia). cbn [default from_option id].
  rewrite lookup_replicate_2 by (oled_consts; lia). cbn [default from_option id].
  do 8 (destruct bit as [|bit]; [reflexivity|]). lia.
Qed.

Lemma uniform_pixmap_wf v : is_uint8 v -> wf_pixmap (replicate (OLED_WIDTH * OLED_HEIGHT) v).
Proof. intros Hv. split; [apply length_replicate|by apply Forall_replicate]. Qed.

Lemma constant_frame_closed_form_witness :
  (is_uint8 3 /\ is_uint8 10) /\
  Nat.iter 5 (update_lumamap ones_frame 3 10) (replicate (OLED_WIDTH * OLED_HEIGHT) 200)
    !! cell_index 2 (1 * 8 + 3)
  = Some (clamp255 (200 + Z.of_nat 5 * cell_drift ones_frame 3 10 1 2 3)).
Proof.
  assert (is_uint8 3 /\ is_uint8 10) as [H3 H10] by (unfold is_uint8; lia).
  split; [done|].
  refine (constant_frame_closed_form ones_frame 3 10 _ 5 1 2 3 200 H3 H10 _ _ _ _ _).
  - apply uniform_pixmap_wf. unfold is_uint8. lia.
  - lia.
  - lia.
  - lia.
  - apply lookup_replicate_2. vm_compute. lia.
Defined.

(** With every bit of the frame set, decay 0 and increment [i > 0], every
    cell is at 255 after [ceil(255 / i)] calls (and any number beyond), and
    a cell at 255 stays there. *)
Theorem full_bright_convergence ssd1306 i pix n :
  frame_all_ones ssd1306 -> 0 < i <= 255 -> wf_pixmap pix ->
  (255 + i - 1) / i <= Z.of_nat n ->
  (forall k, (k < OLED_WIDTH * OLED_HEIGHT)%nat ->
     Nat.iter n (update_lumamap ssd1306 0 i) pix !! k = Some 255) /\
  (forall k, pix !! k = Some 255 -> update_lumamap ssd1306 0 i pix !! k = Some 255).
Proof.
  intros Hones Hi Hwf Hn.
  assert (is_uint8 0 /\ is_uint8 i) as [H0 Hi8] by (unfold is_uint8; lia).
  split.
  - intros k Hk.
    destruct (cell_index_decompose k Hk) as (page & col & bit & (Hp & Hc & Hb) & ->).
    destruct (lookup_lt_is_Some_2 pix (cell_index col (page * 8 + bit))) as [old Hold];
      [by rewrite (proj1 Hwf)|].
    rewrite (constant_frame_iter _ _ _ _ _ _ _ _ old) by done.
    pose proof (proj1 (Forall_lookup _ _) (proj2 Hwf) _ _ Hold) as Ho.
    unfold cell_drift. rewrite Hones by done. f_equal.
    assert (255 <= Z.of_nat n * i).
    { assert (255 <= (255 + i - 1) / i * i); [|nia].
      pose proof (Z.div_mod (255 + i - 1) i ltac:(lia)).
      pose proof (Z.mod_pos_bound (255 + i - 1) i ltac:(lia)). lia. }
    unfold clamp255, is_uint8 in *. lia.
  - intros k Hold.
    assert (k < OLED_WIDTH * OLED_HEIGHT)%nat as Hk.
    { rewrite <- (proj1 Hwf). by eapply lookup_lt_Some. }
    destruct (cell_index_decompose k Hk) as (page & col & bit & (Hp & Hc & Hb) & ->).
    rewrite (update_lumamap_cell _ _ _ _ _ _ _ 255) by (done || (unfold is_uint8; lia)).
    rewrite Hones by done. f_equal. unfold clamp255. lia.
Qed.

Lemma full_bright_convergence_witness :
  (0 < 100 <= 255 /\ (255 + 100 - 1) / 100 <= Z.of_nat 3) /\
  Nat.iter 3 (update_lumamap ones_frame 0 100) (luma_pixmap zero_context) !! 4000%nat
  = Some 255.
Proof.
  split; [split; [lia|vm_compute; discriminate]|].
  refine (proj1 (full_bright_convergence ones_frame 100 (luma_pixmap zero_context) 3
                   ones_frame_all_ones _ zero_pixmap_wf _) 4000%nat _).
  - lia.
  - vm_compute. discriminate.
  - unfold OLED_WIDTH, OLED_HEIGHT. lia.
Defined.

(** Whatever the arguments (even a map of the wrong length), the update
    only touches indices below [OLED_WIDTH * OLED_HEIGHT] and returns a map
    of the length it was given: it never reads or writes past the array. *)
Theorem update_lumamap_in_bounds ssd1306 d i pix :
  Forall (fun k => (k < OLED_WIDTH * OLED_HEIGHT)%nat)
         (visited (update_lumamap_traced ssd1306 d i pix)) /\
  length (update_lumamap ssd1306 d i pix) = length pix.
Proof.
  split; [|apply update_lumamap_length].
  rewrite update_lumamap_visited. apply Forall_forall.
  intros k Hk. apply list_elem_of_In in Hk.
  exact (proj1 (cell_order_bound k) Hk).
Qed.

(** Decay 0 with increment 255: a cell under a set bit jumps to 255 in one
    call, a cell under a clear bit keeps its value (it never fades). *)
Theorem no_decay_full_increment ssd1306 pix page col bit old :
  wf_pixmap pix ->
  (page < 8)%nat -> (col < 128)%nat -> (bit < 8)%nat ->
  pix !! cell_index col (page * 8 + bit) = Some old ->
  update_lumamap ssd1306 0 255 pix !! cell_index col (page * 8 + bit)
  = Some (if frame_bit ssd1306 page col bit then 255 else old).
Proof.
  intros Hwf Hp Hc Hb Hold.
  pose proof (proj1 (Forall_lookup _ _) (proj2 Hwf) _ _ Hold) as Ho.
  rewrite (update_lumamap_cell _ _ _ _ _ _ _ old) by (done || (unfold is_uint8; lia)).
  f_equal. unfold clamp255, is_uint8 in *.
  destruct (frame_bit ssd1306 page col bit); lia.
Qed.

Lemma no_decay_full_increment_witness :
  wf_pixmap (replicate (OLED_WIDTH * OLED_HEIGHT) 40) /\
  update_lumamap zero_frame 0 255 (replicate (OLED_WIDTH * OLED_HEIGHT) 40)
    !! cell_index 5 (2 * 8 + 1)
  = Some (if frame_bit zero_frame 2 5 1 then 255 else 40).
Proof.
  assert (wf_pixmap (replicate (OLED_WIDTH * OLED_HEIGHT) 40)) as Hwf
    by (apply uniform_pixmap_wf; unfold is_uint8; lia).
  split; [exact Hwf|].
  refine (no_decay_full_increment zero_frame _ 2 5 1 40 Hwf _ _ _ _).
  - lia.
  - lia.
  - lia.
  - apply lookup_replicate_2. vm_compute. lia.
Defined.

(** * Further properties of the display geometry *)

Lemma spec_scale_below_overflow w h :
  is_surface_size w h -> w < 65536 \/ h < 32768 -> spec_scale w h < 512.
Proof.
  unfold is_surface_size, spec_scale, INT32_MAX. geometry_consts. intros [Hw Hh] Hlt.
  Z.to_euclidean_division_equations. lia.
Qed.

Lemma spec_scale_at_least_3 w h :
  is_surface_size w h -> 384 <= w -> 192 <= h -> 3 <= spec_scale w h.
Proof.
  unfold is_surface_size, spec_scale, INT32_MAX. geometry_consts. intros [Hw Hh] H1 H2.
  Z.to_euclidean_division_equations. lia.
Qed.

Lemma calculate_display_scaling_shape w h ctx :
  is_surface_size w h ->
  let geo := calculate_display_scaling w h ctx in
  1 <= scale geo /\
  canvas_width geo = 128 * scale geo /\ canvas_height geo = 64 * scale geo /\
  canvas_width geo <= INT32_MAX /\
  canvas geo = canvas ctx /\ luma_pixmap geo = luma_pixmap ctx /\
  initialized geo = initialized ctx.
Proof.
  intros Hs geo. pose proof (spec_scale_bounds w h Hs) as [H1 Hfit].
  subst geo. unfold calculate_display_scaling, scaling_capacity_guard.
  rewrite scaling_unguarded_spec by done.
  cbn [canvas_width canvas_height set_geometry].
  unfold is_surface_size, INT32_MAX in *.
  destruct (_ >? _);
    cbn [scale canvas_width canvas_height canvas luma_pixmap initialized set_geometry];
    geometry_consts; repeat split; lia.
Qed.

(** For every surface size the geometry left in the context is coherent:
    the scale is at least 1, the canvas is [128 * scale] by [64 * scale],
    and nothing but the geometry fields has changed. *)
Theorem geometry_invariant w h ctx :
  is_surface_size w h ->
  let geo := calculate_display_scaling w h ctx in
  1 <= scale geo /\
  canvas_width geo = 128 * scale geo /\ canvas_height geo = 64 * scale geo /\
  canvas geo = canvas ctx /\ luma_pixmap geo = luma_pixmap ctx /\
  initialized geo = initialized ctx.
Proof.
  intros Hs geo.
  destruct (calculate_display_scaling_shape w h ctx Hs)
    as (H1 & H2 & H3 & _ & H4 & H5 & H6).
  subst geo. split; [exact H1|]. split; [exact H2|]. split; [exact H3|].
  split; [exact H4|]. split; [exact H5|exact H6].
Qed.

Lemma geometry_invariant_witness :
  is_surface_size 1000 500 /\
  1 <= scale (calculate_display_scaling 1000 500 zero_context) /\
  canvas_width (calculate_display_scaling 1000 500 zero_context)
  = 128 * scale (calculate_display_scaling 1000 500 zero_context).
Proof.
  assert (is_surface_size 1000 500) as Hs by (unfold is_surface_size, INT32_MAX; lia).
  split; [exact Hs|].
  pose proof (geometry_invariant 1000 500 zero_context Hs) as (H1 & H2 & _).
  split; [exact H1|exact H2].
Defined.

(** As long as one side of the surface is below the size at which the
    area product overflows ([w < 65536] or [h < 32768]), the canvas handed
    to the toolkit fits the static buffer and the scale is 1 or 2. *)
Theorem canvas_fits_buffer_below_overflow w h ctx :
  is_surface_size w h -> w < 65536 \/ h < 32768 ->
  let geo := calculate_display_scaling w h ctx in
  canvas_width geo * canvas_height geo <= MAX_CANVAS_SIZE /\
  (scale geo = 1 \/ scale geo = 2).
Proof.
  intros Hs Hlt geo.
  pose proof (capacity_guard_sound w h ctx Hs (spec_scale_below_overflow w h Hs Hlt))
    as [Hscale Harea].
  split; [exact Harea|exact Hscale].
Qed.

Lemma canvas_fits_buffer_below_overflow_witness :
  (is_surface_size 100000 30000 /\ (100000 < 65536 \/ 30000 < 32768)) /\
  canvas_width (calculate_display_scaling 100000 30000 zero_context)
  * canvas_height (calculate_display_scaling 100000 30000 zero_context)
  <= MAX_CANVAS_SIZE.
Proof.
  assert (is_surface_size 100000 30000) as Hs by (unfold is_surface_size, INT32_MAX; lia).
  assert (100000 < 65536 \/ 30000 < 32768) as Hlt by lia.
  split; [by split|].
  exact (proj1 (canvas_fits_buffer_below_overflow 100000 30000 zero_context Hs Hlt)).
Defined.

(** On a surface of at least 384x192 (below the overflow size) the guard
    fires and the geometry is exactly the unscaled one: scale 1, canvas
    128x64, centred. *)
Theorem large_surface_falls_back w h ctx :
  is_surface_size w h -> 384 <= w -> 192 <= h -> w < 65536 \/ h < 32768 ->
  let geo := calculate_display_scaling w h ctx in
  scale geo = 1 /\ canvas_width geo = 128 /\ canvas_height geo = 64 /\
  offset_x geo = (w - 128) / 2 /\ offset_y geo = (h - 64) / 2.
Proof.
  intros Hs Hw Hh Hlt geo. subst geo.
  rewrite calculate_display_scaling_fallback;
    [|done|split; [by apply spec_scale_at_least_3|by apply spec_scale_below_overflow]].
  cbn [scale canvas_width canvas_height offset_x offset_y set_geometry].
  rewrite !Z.quot_div_nonneg by lia. done.
Qed.

Lemma large_surface_falls_back_witness :
  (is_surface_size 800 480 /\ 384 <= 800 /\ 192 <= 480 /\ (800 < 65536 \/ 480 < 32768)) /\
  scale (calculate_display_scaling 800 480 zero_context) = 1.
Proof.
  assert (is_surface_size 800 480) as Hs by (unfold is_surface_size, INT32_MAX; lia).
  split; [split; [exact Hs|lia]|].
  refine (proj1 (large_surface_falls_back 800 480 zero_context Hs _ _ _)); lia.
Defined.

(** On a surface of at least 128x64 the canvas lies within the surface
    and is centred: both margins are non-negative and the right (bottom)
    margin exceeds the left (top) one by at most one pixel. *)
Theorem canvas_within_surface w h ctx :
  is_surface_size w h -> 128 <= w -> 64 <= h ->
  let geo := calculate_display_scaling w h ctx in
  (0 <= offset_x geo /\ offset_x geo + canvas_width geo <= w /\
   0 <= (w - canvas_width geo - offset_x geo) - offset_x geo <= 1) /\
  (0 <= offset_y geo /\ offset_y geo + canvas_height geo <= h /\
   0 <= (h - canvas_height geo - offset_y geo) - offset_y geo <= 1).
Proof.
  intros Hs Hw Hh geo. pose proof (spec_scale_bounds w h Hs) as [H1 Hfit].
  subst geo. unfold calculate_display_scaling, scaling_capacity_guard.
  rewrite scaling_unguarded_spec by done.
  cbn [canvas_width canvas_height set_geometry].
  unfold is_surface_size, INT32_MAX in Hs. geometry_consts.
  destruct (_ >? _); cbn [offset_x offset_y canvas_width canvas_height set_geometry].
  - rewrite !to_int32_small by lia. rewrite !Z.quot_div_nonneg by lia.
    Z.to_euclidean_division_equations. lia.
  - rewrite !Z.quot_div_nonneg by lia.
    Z.to_euclidean_division_equations. lia.
Qed.

Lemma canvas_within_surface_witness :
  (is_surface_size 385 168 /\ 128 <= 385 /\ 64 <= 168) /\
  0 <= offset_x (calculate_display_scaling 385 168 zero_context).
Proof.
  assert (is_surface_size 385 168) as Hs by (unfold is_surface_size, INT32_MAX; lia).
  split; [split; [exact Hs|lia]|].
  refine (proj1 (proj1 (canvas_within_surface 385 168 zero_context Hs _ _))); lia.
Defined.

(** On a surface smaller than the source in either direction the scale is
    1 and the canvas is the full 128x64: it overflows the surface instead
    of shrinking, with a non-positive offset in each short direction. *)
Theorem small_surface_overflows w h ctx :
  is_surface_size w h -> w < 128 \/ h < 64 ->
  let geo := calculate_display_scaling w h ctx in
  scale geo = 1 /\ canvas_width geo = 128 /\ canvas_height geo = 64 /\
  offset_x geo = Z.quot (w - 128) 2 /\ offset_y geo = Z.quot (h - 64) 2 /\
  (w < 128 -> offset_x geo <= 0 /\ w < offset_x geo + canvas_width geo) /\
  (h < 64 -> offset_y geo <= 0 /\ h < offset_y geo + canvas_height geo).
Proof.
  intros Hs Hsmall geo.
  assert (spec_scale w h = 1) as Hone.
  { unfold is_surface_size, spec_scale, INT32_MAX in *. geometry_consts.
    Z.to_euclidean_division_equations. lia. }
  subst geo. rewrite calculate_display_scaling_fits by (done || lia).
  rewrite scaling_unguarded_spec by done. rewrite Hone.
  cbn [scale offset_x offset_y canvas_width canvas_height set_geometry].
  unfold is_surface_size, INT32_MAX in Hs.
  repeat split; try lia; Z.to_euclidean_division_equations; lia.
Qed.

Lemma small_surface_overflows_witness :
  (is_surface_size 127 300 /\ (127 < 128 \/ 300 < 64)) /\
  scale (calculate_display_scaling 127 300 zero_context) = 1.
Proof.
  assert (is_surface_size 127 300) as Hs by (unfold is_surface_size, INT32_MAX; lia).
  split; [split; [done|lia]|].
  refine (proj1 (small_surface_overflows 127 300 zero_context Hs _)). lia.
Defined.

(** * Further properties of set-up and tear-down *)

Lemma init_initialized {surface : Type} (fill_bg : surface -> lv_color_t -> Z -> surface)
    w h c (st : ArduboyLvglContext * surface) :
  initialized (ssd1306_gl_init fill_bg w h c st).1 = true.
Proof.
  unfold ssd1306_gl_init. destruct (initialized st.1) eqn:Hinit; [exact Hinit|].
  reflexivity.
Qed.

(** A second initialisation changes nothing, whatever screen size and
    canvas it is given: no second canvas, no new geometry, no reset of the
    luminance map. *)
Theorem init_twice_is_init_once {surface : Type}
    (fill_bg : surface -> lv_color_t -> Z -> surface)
    w h c w' h' c' (st : ArduboyLvglContext * surface) :
  ssd1306_gl_init fill_bg w' h' c' (ssd1306_gl_init fill_bg w h c st)
  = ssd1306_gl_init fill_bg w h c st.
Proof.
  pose proof (init_initialized fill_bg w h c st) as Hinit.
  unfold ssd1306_gl_init at 1. by rewrite Hinit.
Qed.

(** Tear-down followed by set-up starts afresh: whatever the context held,
    the luminance map is all zero again, the geometry is the one computed
    for the reported screen size, the new canvas is installed and painted
    black, and the context is initialised. *)
Theorem init_after_cleanup_starts_afresh {surface : Type}
    (fill_bg : surface -> lv_color_t -> Z -> surface)
    w h c (ctx : ArduboyLvglContext) (surf : surface) :
  let r := ssd1306_gl_init fill_bg w h c (ssd1306_gl_cleanup ctx, surf) in
  initialized r.1 = true /\ canvas r.1 = c /\
  luma_pixmap r.1 = replicate (OLED_WIDTH * OLED_HEIGHT) 0 /\
  scale r.1 = scale (calculate_display_scaling w h zero_context) /\
  offset_x r.1 = offset_x (calculate_display_scaling w h zero_context) /\
  offset_y r.1 = offset_y (calculate_display_scaling w h zero_context) /\
  canvas_width r.1 = canvas_width (calculate_display_scaling w h zero_context) /\
  canvas_height r.1 = canvas_height (calculate_display_scaling w h zero_context) /\
  r.2 = fill_bg surf lv_color_black LV_OPA_COVER.
Proof.
  intros r. subst r. unfold ssd1306_gl_init.
  cbn [fst snd]. rewrite (proj2 (cleanup_not_initialized ctx)).
  unfold create_canvas. cbn [fst snd].
  split; [reflexivity|]. split; [reflexivity|]. split.
  - cbn [luma_pixmap set_initialized set_canvas].
    unfold calculate_display_scaling, scaling_capacity_guard.
    destruct (_ >? _); reflexivity.
  - repeat split; reflexivity.
Qed.

(** Tear-down drops the canvas of an initialised context and clears the
    flag, keeps the luminance map and the geometry, is idempotent, and
    turns rendering into a no-op. *)
Theorem cleanup_properties {surface : Type}
    (fill_bg : surface -> lv_color_t -> Z -> surface)
    (set_px : surface -> Z -> Z -> lv_color_t -> Z -> surface)
    (ctx : ArduboyLvglContext) (surf : surface) :
  let c := ssd1306_gl_cleanup ctx in
  initialized c = false /\
  (initialized ctx = true -> canvas c = None) /\
  luma_pixmap c = luma_pixmap ctx /\
  (scale c, offset_x c, offset_y c, canvas_width c, canvas_height c)
  = (scale ctx, offset_x ctx, offset_y ctx, canvas_width ctx, canvas_height ctx) /\
  ssd1306_gl_cleanup c = c /\
  ssd1306_gl_render fill_bg set_px c surf = surf.
Proof.
  intros c. pose proof (proj2 (cleanup_not_initialized ctx)) as Hc. fold c in Hc.
  split; [exact Hc|]. split; [|split; [|split; [|split]]].
  - intros Hinit. subst c. unfold ssd1306_gl_cleanup. rewrite Hinit.
    destruct (canvas ctx) eqn:Hcan; [reflexivity|exact Hcan].
  - subst c. unfold ssd1306_gl_cleanup.
    destruct (initialized ctx); [|reflexivity]. by destruct (canvas ctx).
  - subst c. unfold ssd1306_gl_cleanup.
    destruct (initialized ctx); [|reflexivity]. by destruct (canvas ctx).
  - unfold ssd1306_gl_cleanup at 1. by rewrite Hc.
  - unfold ssd1306_gl_render. by rewrite Hc.
Qed.

(** * Further properties of key handling *)

(** The lookup table yields -1 or an index of the key table, and -1
    exactly for the codes outside the table: the handler never indexes
    [key_states] out of bounds. *)
Theorem key_to_button_e_range key :
  -1 <= key_to_button_e key < Z.of_nat BUTTON_COUNT /\
  (key_to_button_e key = -1 <-> key ∉ mapped_keys).
Proof.
  destruct (decide (key ∈ mapped_keys)) as [Hin|Hout].
  - pose proof (key_to_button_e_mapped key Hin). split; [lia|].
    split; [lia|done].
  - pose proof (key_to_button_e_unmapped key Hout) as ->.
    split; [by vm_compute|done].
Qed.

(** The two ways a key event can go. *)
Lemma handle_input_cases key st :
  lv_arduboy_emu_app_handle_input key st = (st, []) \/
  (0 <= key_to_button_e key < Z.of_nat BUTTON_COUNT /\
   key_states st !!! Z.to_nat (key_to_button_e key) = false /\
   lv_arduboy_emu_app_handle_input key st
   = ({| key_states := <[Z.to_nat (key_to_button_e key) := true]> (key_states st);
         g_release_timer := Some (default (mkTimer 100) (g_release_timer st)) |},
      [ButtonEvent (key_to_button_e key) true;
       match g_release_timer st with
       | Some _ => TimerReset
       | None => TimerCreate 100
       end])).
Proof.
  unfold lv_arduboy_emu_app_handle_input.
  destruct (Z.leb_spec 0 (key_to_button_e key)); [|by left].
  destruct (Z.ltb_spec (key_to_button_e key) (Z.of_nat BUTTON_COUNT)); [|by left].
  cbn [andb].
  destruct (key_states st !!! Z.to_nat (key_to_button_e key)) eqn:Hflag; [by left|].
  right. split; [lia|]. split; [done|]. cbn [negb].
  by destruct (g_release_timer st).
Qed.

Lemma handle_input_length key st :
  length (key_states (lv_arduboy_emu_app_handle_input key st).1) = length (key_states st).
Proof.
  destruct (handle_input_cases key st) as [-> | (_ & _ & ->)]; [done|].
  cbn [fst key_states]. apply length_insert.
Qed.

(** The timer callback after itself finds nothing to release: a repeating
    timer that keeps expiring emits one batch of releases, then nothing. *)
Theorem timer_fire_twice st :
  length (key_states st) = BUTTON_COUNT ->
  key_release_timer_cb (key_release_timer_cb st).1
  = ((key_release_timer_cb st).1, []).
Proof.
  destruct st as [ks t]. cbn [key_states]. intros Hlen.
  do 7 (destruct ks as [|? ks]; try discriminate Hlen).
  repeat match goal with b : bool |- _ => destruct b end; reflexivity.
Qed.

Lemma timer_fire_twice_witness :
  length (key_states (mkInput [true; true; false; false; false; true] None)) = BUTTON_COUNT /\
  key_release_timer_cb
    (key_release_timer_cb (mkInput [true; true; false; false; false; true] None)).1
  = ((key_release_timer_cb (mkInput [true; true; false; false; false; true] None)).1, []).
Proof.
  split; [reflexivity|].
  exact (timer_fire_twice (mkInput [true; true; false; false; false; true] None) eq_refl).
Defined.

(** ** Any interleaving of key events and timer expiries *)

Lemma run_events_snoc es e st :
  run_events (es ++ [e]) st
  = ((input_step (run_events es st).1 e).1,
     (run_events es st).2 ++ (input_step (run_events es st).1 e).2).
Proof.
  unfold run_events. rewrite foldl_app. cbn [foldl].
  destruct (foldl _ _ es) as [st1 evs1]. cbn [fst snd].
  by destruct (input_step st1 e).
Qed.



Lemma replay_app evs1 : forall ks evs2,
  replay ks (evs1 ++ evs2)
  = match replay ks evs1 with
    | Some ks' => replay ks' evs2
    | None => None
    end.
Proof.
  induction evs1 as [|e evs1 IH]; intros ks evs2; [done|].
  cbn [app replay]. destruct (replay_effect ks e); [apply IH|done].
Qed.

Lemma input_step_replay st e :
  length (key_states st) = BUTTON_COUNT ->
  replay (key_states st) (input_step st e).2 = Some (key_states (input_step st e).1) /\
  length (key_states (input_step st e).1) = BUTTON_COUNT.
Proof.
  intros Hlen. destruct e as [key|]; cbn [input_step]; unfold arduboy_key_event_cb.
  - destruct (handle_input_cases key st) as [-> | (Hb & Hflag & ->)]; [done|].
    cbn [fst snd key_states replay replay_effect].
    destruct (Z.leb_spec 0 (key_to_button_e key)); [|lia].
    destruct (Z.ltb_spec (key_to_button_e key) (Z.of_nat BUTTON_COUNT)); [|lia].
    cbn [andb].
    destruct (lookup_lt_is_Some_2 (key_states st) (Z.to_nat (key_to_button_e key)))
      as [cur Hcur]; [rewrite Hlen; lia|].
    rewrite Hcur. rewrite (list_lookup_total_correct _ _ _ Hcur) in Hflag. subst cur.
    cbn [Bool.eqb]. destruct (g_release_timer st); cbn [replay_effect];
      (split; [reflexivity|by rewrite length_insert]).
  - destruct st as [ks t]. cbn [key_states g_release_timer] in *.
    destruct t as [t|]; [|done].
    do 7 (destruct ks as [|? ks]; try discriminate Hlen).
    repeat match goal with b : bool |- _ => destruct b end; by vm_compute.
Qed.

(** Over any interleaving of key events and timer expiries, the signals
    sent to the emulator are consistent with its own view of the buttons:
    every index is within the table, a button is never pressed while
    pressed nor released while released, and after the last signal the
    emulator's buttons are exactly the handler's [key_states]. *)
Theorem button_signals_alternate es st :
  length (key_states st) = BUTTON_COUNT ->
  replay (key_states st) (run_events es st).2 = Some (key_states (run_events es st).1) /\
  length (key_states (run_events es st).1) = BUTTON_COUNT.
Proof.
  intros Hlen. induction es as [|e es [IH1 IH2]] using rev_ind; [done|].
  rewrite run_events_snoc. cbn [fst snd].
  rewrite replay_app, IH1.
  by apply input_step_replay.
Qed.

Lemma button_signals_alternate_witness :
  length (key_states input_init) = BUTTON_COUNT /\
  replay (key_states input_init)
    (run_events [KeyEvent 17; KeyEvent 122; KeyEvent 17; TimerFire; KeyEvent 10]
                input_init).2
  = Some (key_states
            (run_events [KeyEvent 17; KeyEvent 122; KeyEvent 17; TimerFire; KeyEvent 10]
                        input_init).1).
Proof.
  split; [reflexivity|].
  exact (proj1 (button_signals_alternate
                  [KeyEvent 17; KeyEvent 122; KeyEvent 17; TimerFire; KeyEvent 10]
                  input_init eq_refl)).
Defined.

(** ** One quiescence window *)

Lemma pressed_buttons_app evs1 evs2 :
  pressed_buttons (evs1 ++ evs2) = pressed_buttons evs1 ++ pressed_buttons evs2.
Proof. apply omap_app. Qed.

Lemma release_batch_buttons l :
  released_buttons ((fun i => ButtonEvent (Z.of_nat i) false) <$> l) = Z.of_nat <$> l /\
  pressed_buttons ((fun i => ButtonEvent (Z.of_nat i) false) <$> l) = [].
Proof.
  induction l as [|i l [IH1 IH2]]; [done|]. split.
  - cbn [fmap list_fmap released_buttons omap list_omap].
    fold (released_buttons ((fun i => ButtonEvent (Z.of_nat i) false) <$> l)).
    by rewrite IH1.
  - cbn [fmap list_fmap pressed_buttons omap list_omap].
    fold (pressed_buttons ((fun i => ButtonEvent (Z.of_nat i) false) <$> l)). exact IH2.
Qed.

Lemma handle_input_held key st evs :
  held_matches (key_states st) evs ->
  held_matches (key_states (lv_arduboy_emu_app_handle_input key st).1)
               (evs ++ (lv_arduboy_emu_app_handle_input key st).2).
Proof.
  intros (Hlen & Hnd & Hmem).
  destruct (handle_input_cases key st) as [-> | (Hb & Hflag & ->)].
  { cbn [fst snd]. by rewrite app_nil_r. }
  cbn [fst snd key_states]. unfold held_matches.
  set (b0 := key_to_button_e key) in *.
  assert (pressed_buttons
            (evs ++ [ButtonEvent b0 true;
                     match g_release_timer st with
                     | Some _ => TimerReset
                     | None => TimerCreate 100
                     end]) = pressed_buttons evs ++ [b0]) as ->.
  { rewrite pressed_buttons_app. by destruct (g_release_timer st). }
  assert (b0 ∉ pressed_buttons evs) as Hfresh.
  { intros [_ Hset]%Hmem.
    rewrite (list_lookup_total_correct _ _ _ Hset) in Hflag. discriminate. }
  split; [by rewrite length_insert|]. split.
  - apply list.NoDup_app. split; [done|]. split; [|apply NoDup_singleton].
    intros b Hin ->%list_elem_of_singleton. done.
  - intros b. rewrite elem_of_app, list_elem_of_singleton. split.
    + intros [Hin | ->].
      * destruct (proj1 (Hmem b) Hin) as [Hrange Hset]. split; [done|].
        rewrite list_lookup_insert_ne; [done|].
        intros Heq. apply Hfresh. replace b0 with b by lia. done.
      * split; [done|]. apply list_lookup_insert_eq. rewrite Hlen. lia.
    + intros [Hrange Hset]. destruct (decide (b = b0)) as [->|Hne]; [by right|].
      left. apply Hmem. split; [done|].
      rewrite list_lookup_insert_ne in Hset; [done|lia].
Qed.

Lemma handle_inputs_held keys : forall st evs,
  held_matches (key_states st) evs ->
  held_matches
    (key_states
       (foldl (fun (acc : input_state * list effect) (key : Z) =>
                 let '(st, evs) := acc in
                 let '(st', evs') := lv_arduboy_emu_app_handle_input key st in
                 (st', evs ++ evs')) (st, evs) keys).1)
    (foldl (fun (acc : input_state * list effect) (key : Z) =>
              let '(st, evs) := acc in
              let '(st', evs') := lv_arduboy_emu_app_handle_input key st in
              (st', evs ++ evs')) (st, evs) keys).2.
Proof.
  induction keys as [|key keys IH]; intros st evs Hheld; [done|].
  cbn [foldl]. pose proof (handle_input_held key st evs Hheld) as Hstep.
  destruct (lv_arduboy_emu_app_handle_input key st) as [st' evs'].
  by apply IH.
Qed.

Lemma NoDup_List_filter {A} (f : A -> bool) (l : list A) :
  NoDup l -> NoDup (List.filter f l).
Proof.
  induction 1 as [|x l Hx Hnd IH]; [constructor|].
  cbn [List.filter]. destruct (f x); [|exact IH].
  constructor; [|exact IH].
  intros Hin. apply Hx. apply list_elem_of_In, List.filter_In in Hin as [Hin _].
  by apply list_elem_of_In.
Qed.

(** Starting with every button Released, any run of key events followed by
    one expiry of the timer: no button was pressed twice, the single batch
    of releases names exactly the buttons that were pressed (whenever each
    was pressed), and every button is Released again. *)
Theorem quiescence_releases_what_was_pressed keys st :
  key_states st = replicate BUTTON_COUNT false ->
  let held := handle_inputs keys st in
  let fired := key_release_timer_cb held.1 in
  NoDup (pressed_buttons held.2) /\
  released_buttons fired.2 ≡ₚ pressed_buttons held.2 /\
  pressed_buttons fired.2 = [] /\
  key_states fired.1 = replicate BUTTON_COUNT false.
Proof.
  intros Hinit held fired.
  assert (held_matches (key_states held.1) held.2) as (Hlen & Hnd & Hmem).
  { apply handle_inputs_held. rewrite Hinit. split; [reflexivity|].
    split; [constructor|]. intros b. split; [by intros ?%elem_of_nil|].
    intros [Hb Hset]. apply lookup_replicate in Hset as [? _]. discriminate. }
  destruct (key_release_timer_cb_spec held.1 Hlen) as (Hevs & Hks & _).
  fold fired in Hevs, Hks. rewrite Hevs.
  destruct (release_batch_buttons
              (List.filter (fun i => key_states held.1 !!! i) (seq 0 BUTTON_COUNT)))
    as [-> ->].
  split; [done|]. split; [|done].
  apply NoDup_Permutation; [|done|].
  - apply NoDup_fmap_2_strong; [intros ?? _ _; apply Nat2Z.inj|].
    apply NoDup_List_filter, NoDup_seq.
  - intros b. rewrite Hmem, list_elem_of_fmap. split.
    + intros (i & -> & Hi). apply list_elem_of_In, List.filter_In in Hi as [Hseq Hflag].
      apply List.in_seq in Hseq. split; [lia|].
      rewrite Nat2Z.id. rewrite list_lookup_lookup_total_lt by lia.
      by rewrite Hflag.
    + intros [Hb Hset]. exists (Z.to_nat b). split; [lia|].
      apply list_elem_of_In, List.filter_In. split; [apply List.in_seq; lia|].
      by rewrite (list_lookup_total_correct _ _ _ Hset).
Qed.

Lemma quiescence_releases_what_was_pressed_witness :
  key_states input_init = replicate BUTTON_COUNT false /\
  released_buttons (key_release_timer_cb (handle_inputs [27; 17; 120; 17] input_init).1).2
    ≡ₚ pressed_buttons (handle_inputs [27; 17; 120; 17] input_init).2.
Proof.
  split; [reflexivity|].
  exact (proj1 (proj2 (quiescence_releases_what_was_pressed [27; 17; 120; 17]
                         input_init eq_refl))).
Defined.

(** * Further properties of rendering *)

Lemma foldl_bind {A B C} (f : A -> B -> A) (g : C -> list B) (l : list C) : forall a,
  foldl f a (l ≫= g) = foldl (fun a x => foldl f a (g x)) a l.
Proof.
  induction l as [|x l IH]; intros a; [done|].
  rewrite bind_cons, foldl_app. cbn [foldl]. apply IH.
Qed.

Lemma foldl_ext {A B} (f g : A -> B -> A) (l : list B) : forall a,
  (forall a x, f a x = g a x) -> foldl f a l = foldl g a l.
Proof.
  induction l as [|x l IH]; intros a Hfg; [done|].
  cbn [foldl]. rewrite Hfg. by apply IH.
Qed.

Section RenderLaws.

Context {surface : Type}.
Variable lv_canvas_fill_bg : surface -> lv_color_t -> Z -> surface.
Variable lv_canvas_set_px : surface -> Z -> Z -> lv_color_t -> Z -> surface.

(** Reading a canvas pixel back. *)
Variable lv_canvas_get_px : surface -> Z -> Z -> lv_color_t.

Variable ctx : ArduboyLvglContext.

(** What is assumed of the toolkit, within the canvas it was given: an
    opaque write is read back, and leaves every other pixel alone. *)
Hypothesis get_set_same : forall surf x y c,
  0 <= x < canvas_width ctx -> 0 <= y < canvas_height ctx ->
  lv_canvas_get_px (lv_canvas_set_px surf x y c LV_OPA_COVER) x y = c.

Hypothesis get_set_other : forall surf x y c x' y',
  0 <= x < canvas_width ctx -> 0 <= y < canvas_height ctx ->
  (x, y) <> (x', y') ->
  lv_canvas_get_px (lv_canvas_set_px surf x y c LV_OPA_COVER) x' y'
  = lv_canvas_get_px surf x' y'.

Local Abbreviation put :=
  (fun (surf : surface) (w : Z * Z * lv_color_t) =>
     lv_canvas_set_px surf w.1.1 w.1.2 w.2 LV_OPA_COVER).

(** The drawing loops are the writes of [render_writes], in order. *)
Lemma render_loops_writes surf :
  foldl (fun surf y =>
           foldl (fun surf x =>
                    let luminance := luma_pixmap ctx !!! (y * OLED_WIDTH + x)%nat in
                    let color := gray_u8_to_rgb luminance in
                    fill_block lv_canvas_set_px (scale ctx) (Z.of_nat x) (Z.of_nat y)
                               color surf)
                 surf (seq 0 OLED_WIDTH))
        surf (seq 0 OLED_HEIGHT)
  = foldl put surf (render_writes ctx).
Proof.
  unfold render_writes. rewrite foldl_bind.
  apply foldl_ext. intros surf1 y. rewrite foldl_bind.
  apply foldl_ext. intros surf2 x. unfold fill_block. rewrite foldl_bind.
  apply foldl_ext. intros surf3 dy. by rewrite foldl_fmap.
Qed.

(** A position that is written, and only ever with one colour, reads back
    that colour. *)
Lemma writes_read_back ws : forall surf px py c,
  (forall w, w ∈ ws -> 0 <= w.1.1 < canvas_width ctx /\ 0 <= w.1.2 < canvas_height ctx) ->
  (forall w, w ∈ ws -> w.1 = (px, py) -> w.2 = c) ->
  (exists w, w ∈ ws /\ w.1 = (px, py)) ->
  lv_canvas_get_px (foldl put surf ws) px py = c.
Proof.
  induction ws as [|w ws IH] using rev_ind; intros surf px py c Hin_canvas Hcol Hex.
  { destruct Hex as (w & Hw & _). by apply elem_of_nil in Hw. }
  rewrite foldl_app. cbn [foldl].
  destruct (Hin_canvas w) as [Hx Hy]; [apply elem_of_app; right; by left|].
  destruct (decide (w.1 = (px, py))) as [Heq|Hne].
  - rewrite <- (Hcol w) by (done || (apply elem_of_app; right; by left)).
    destruct w as [[wx wy] wc]. cbn [fst snd] in *. inv Heq.
    by apply get_set_same.
  - destruct w as [[wx wy] wc]. cbn [fst snd] in *.
    rewrite get_set_other by done.
    apply IH.
    + intros w' Hw'. apply Hin_canvas, elem_of_app. by left.
    + intros w' Hw'. apply Hcol, elem_of_app. by left.
    + destruct Hex as (w' & Hw' & Hpos).
      apply elem_of_app in Hw' as [Hw'|Hw']; [by exists w'|].
      apply list_elem_of_singleton in Hw' as ->. done.
Qed.

Hypothesis ctx_initialized : initialized ctx = true.
Hypothesis ctx_canvas : canvas ctx <> None.
Hypothesis scale_positive : 1 <= scale ctx.
Hypothesis canvas_width_scaled : canvas_width ctx = 128 * scale ctx.
Hypothesis canvas_height_scaled : canvas_height ctx = 64 * scale ctx.
Hypothesis canvas_width_int : canvas_width ctx <= INT32_MAX.

Lemma elem_of_render_writes w :
  w ∈ render_writes ctx <->
  exists (x y : nat) (dx dy : Z),
    (x < 128)%nat /\ (y < 64)%nat /\ 0 <= dx < scale ctx /\ 0 <= dy < scale ctx /\
    w = (Z.of_nat x * scale ctx + dx, Z.of_nat y * scale ctx + dy,
         gray_u8_to_rgb (luma_pixmap ctx !!! (y * OLED_WIDTH + x)%nat)).
Proof.
  unfold render_writes, INT32_MAX in *. split.
  - intros (y & Hw & Hy)%list_elem_of_bind.
    apply list_elem_of_bind in Hw as (x & Hw & Hx).
    apply list_elem_of_bind in Hw as (dy & Hw & Hdy).
    apply list_elem_of_fmap in Hw as (dx & -> & Hdx).
    apply elem_of_seq in Hx, Hy. apply elem_of_seqZ in Hdx, Hdy. oled_consts.
    exists x, y, dx, dy. repeat (split; [lia|]).
    rewrite (to_int32_small (Z.of_nat x * scale ctx)) by nia.
    rewrite (to_int32_small (Z.of_nat y * scale ctx)) by nia.
    rewrite !to_int32_small by nia. reflexivity.
  - intros (x & y & dx & dy & Hx & Hy & Hdx & Hdy & ->).
    apply list_elem_of_bind. exists y. split; [|apply elem_of_seq; oled_consts; lia].
    apply list_elem_of_bind. exists x. split; [|apply elem_of_seq; oled_consts; lia].
    apply list_elem_of_bind. exists dy. split; [|apply elem_of_seqZ; lia].
    apply list_elem_of_fmap. exists dx. split; [|apply elem_of_seqZ; lia].
    rewrite (to_int32_small (Z.of_nat x * scale ctx)) by nia.
    rewrite (to_int32_small (Z.of_nat y * scale ctx)) by nia.
    rewrite !to_int32_small by nia. reflexivity.
Qed.

Lemma block_div (x : nat) (d s : Z) :
  1 <= s -> 0 <= d < s -> Z.to_nat ((Z.of_nat x * s + d) / s) = x.
Proof.
  intros Hs Hd. rewrite Z.div_add_l by lia. rewrite Z.div_small by lia. lia.
Qed.

Lemma render_reads_upscaled surf px py :
  0 <= px < canvas_width ctx -> 0 <= py < canvas_height ctx ->
  lv_canvas_get_px (ssd1306_gl_render lv_canvas_fill_bg lv_canvas_set_px ctx surf) px py
  = upscaled ctx px py.
Proof.
  intros Hpx Hpy. unfold ssd1306_gl_render. rewrite ctx_initialized.
  destruct (canvas ctx) as [c|] eqn:Hc; [|done]. cbn [negb non_null orb].
  cbv zeta. rewrite render_loops_writes.
  apply writes_read_back.
  - intros w (x & y & dx & dy & Hx & Hy & Hdx & Hdy & ->)%elem_of_render_writes.
    cbn [fst snd]. rewrite canvas_width_scaled, canvas_height_scaled. nia.
  - intros w (x & y & dx & dy & Hx & Hy & Hdx & Hdy & ->)%elem_of_render_writes Hpos.
    cbn [fst snd] in *. inv Hpos. unfold upscaled.
    by rewrite !block_div.
  - pose proof (Z.div_mod px (scale ctx) ltac:(lia)) as Hdx.
    pose proof (Z.mod_pos_bound px (scale ctx) ltac:(lia)) as Hmx.
    pose proof (Z.div_mod py (scale ctx) ltac:(lia)) as Hdy.
    pose proof (Z.mod_pos_bound py (scale ctx) ltac:(lia)) as Hmy.
    assert (0 <= px / scale ctx < 128) by (rewrite canvas_width_scaled in Hpx; nia).
    assert (0 <= py / scale ctx < 64) by (rewrite canvas_height_scaled in Hpy; nia).
    eexists. split.
    + apply elem_of_render_writes.
      exists (Z.to_nat (px / scale ctx)), (Z.to_nat (py / scale ctx)),
             (px mod scale ctx), (py mod scale ctx).
      repeat (split; [lia|]). reflexivity.
    + cbn [fst]. f_equal; lia.
Qed.

(** After a render on an initialised context whose canvas is
    [128 * scale] by [64 * scale], every canvas pixel [(px, py)] shows the
    grey of source pixel [(px / scale, py / scale)]: the canvas is the
    luminance map enlarged by whole blocks, nothing of the background or of
    an earlier frame remains. *)
Theorem render_is_upscaling surf px py :
  0 <= px < canvas_width ctx -> 0 <= py < canvas_height ctx ->
  lv_canvas_get_px (ssd1306_gl_render lv_canvas_fill_bg lv_canvas_set_px ctx surf) px py
  = upscaled ctx px py.
Proof. apply render_reads_upscaled. Qed.

End RenderLaws.

Lemma px_get_set_same (s : px_store) x y c opa :
  px_get (px_set s x y c opa) x y = c.
Proof. unfold px_get, px_set. by rewrite !Z.eqb_refl. Qed.

Lemma px_get_set_other (s : px_store) x y c opa x' y' :
  (x, y) <> (x', y') -> px_get (px_set s x y c opa) x' y' = px_get s x' y'.
Proof.
  intros Hne. unfold px_get, px_set.
  destruct (Z.eqb_spec x x') as [->|]; [|done].
  destruct (Z.eqb_spec y y') as [->|]; done.
Qed.

Lemma render_is_upscaling_witness :
  (1 <= 2 /\ 0 <= 5 < 256 /\ 0 <= 3 < 128) /\
  px_get (ssd1306_gl_render px_fill px_set
            (mkContext (Some 0%nat) 2 64 20 256 128
                       (replicate (OLED_WIDTH * OLED_HEIGHT) 7) true)
            (fun _ _ => lv_color_black)) 5 3
  = upscaled (mkContext (Some 0%nat) 2 64 20 256 128
                        (replicate (OLED_WIDTH * OLED_HEIGHT) 7) true) 5 3.
Proof.
  split; [lia|].
  refine (render_is_upscaling px_fill px_set px_get
            (mkContext (Some 0%nat) 2 64 20 256 128
                       (replicate (OLED_WIDTH * OLED_HEIGHT) 7) true)
            _ _ _ _ _ _ _ _ (fun _ _ => lv_color_black) 5 3 _ _).
  - intros. apply px_get_set_same.
  - intros. by apply px_get_set_other.
  - reflexivity.
  - discriminate.
  - cbn [scale]. lia.
  - reflexivity.
  - reflexivity.
  - cbn [canvas_width]. unfold INT32_MAX. lia.
  - cbn [canvas_width]. lia.
  - cbn [canvas_height]. lia.
Defined.

(** * Set-up, one update and a render together *)


